(** * Pin tokens over two Mongoose models: a shallow embedding of [src/tokens.ts]

    The class [Tokens] of [src/tokens.ts] issues, validates and retires pin
    tokens.  It talks to two Mongoose models, [models.Token] and
    [models.User].  This development embeds its six methods as functions over
    an explicit world (the two collections, the wall clock and a plan of
    storage faults) and proves the properties of the token life cycle.

    Conventions of the embedding:
    - a JavaScript string is a [string]; a timestamp or duration is an integer
      number of milliseconds, a [Z] (the doubles of the source are exact on
      the integers a clock produces);
    - an optional field is an [option], [None] standing for [undefined];
    - a lean user record, a plain JavaScript object, is a [gmap string jsval];
    - a promise is a function from the world to a settled outcome and the
      next world ([Async]); [await] is the bind of that monad, a rejection
      short-cuts it like a thrown exception. *)

From Stdlib Require Import ZArith String Ascii List Bool Lia.
From stdpp Require Import base option list strings gmap fin_maps.

Local Open Scope string_scope.
Local Open Scope Z_scope.

(** ** [src/result.ts] *)

(** [Result<D, E> = Ok<D> | Err<E>], discriminated by the field [ok]. *)
Inductive Result (D E : Type) : Type :=
| ok (data : D)
| err (error : E).
Arguments ok {D E} data.
Arguments err {D E} error.

(** ** Data model *)

(** The values a field of a stored user record can hold. *)
Inductive jsval : Type :=
| VUndefined
| VNull
| VBool (b : bool)
| VNumber (n : Z)
| VString (s : string)
| VObjectId (hex : string).

(** [x !== s] for a string [s]: strict inequality holds unless [x] is a string
    with the same content. *)
Definition strictNeqString (x : jsval) (s : string) : bool :=
  match x with
  | VString s' => negb (String.eqb s' s)
  | _ => true
  end.

(** A lean user record: the own properties of a plain object. *)
Abbreviation RawUser := (gmap string jsval).

(** [o[k]]: reading a property the object does not have gives [undefined]. *)
Definition prop (o : RawUser) (k : string) : jsval :=
  default VUndefined (o !! k).

(** [TokenBase], as stored: Mongoose adds the document identity [_id]. *)
Record Token : Type := mkToken {
  _id : nat;
  pin : string;
  kind : string;
  identifier : string;
  data : option (gmap string jsval);
  expiresInMs : option Z;
  createdAt : Z
}.

(** [Omit<Token, "pin" | "createdAt">], the argument of [create] and
    [getOrCreate]. *)
Record TokenInput : Type := mkInput {
  in_kind : string;
  in_identifier : string;
  in_data : option (gmap string jsval);
  in_expiresInMs : option Z
}.

(** The parsed identifier [{ field, value }]. *)
Record Identifier : Type := mkIdentifier {
  field : string;
  value : string
}.

(** The error objects, discriminated by [code]; the two user errors carry the
    parsed identifier. *)
Inductive TokenError : Type :=
| token_not_found
| token_expired
| user_not_found (identifier : Identifier)
| identifier_value_mismatch (identifier : Identifier).

(** A storage failure, as thrown by the driver. *)
Definition Exn : Type := string.

(** The world a call runs in.  [faults] is the plan of the storage layer: each
    storage operation consumes its head, and a [Some e] there makes that
    operation reject with [e] without touching the collections. *)
Record World : Type := mkWorld {
  tokens : list Token;
  users : list RawUser;
  clock : Z;
  nextId : nat;
  faults : list (option Exn)
}.

Definition setTokens (ts : list Token) (w : World) : World :=
  mkWorld ts (users w) (clock w) (nextId w) (faults w).

Definition setFaults (fs : list (option Exn)) (w : World) : World :=
  mkWorld (tokens w) (users w) (clock w) (nextId w) fs.

(** Time passing between two calls. *)
Definition setClock (now : Z) (w : World) : World :=
  mkWorld (tokens w) (users w) now (nextId w) (faults w).

(** ** Promises *)

Inductive Settled (A : Type) : Type :=
| Fulfilled (a : A)
| Rejected (e : Exn).
Arguments Fulfilled {A} a.
Arguments Rejected {A} e.

Definition Async (A : Type) : Type := World -> Settled A * World.

Definition resolve {A : Type} (a : A) : Async A := fun w => (Fulfilled a, w).

(** [const x = await p; k x]. *)
Definition await {A B : Type} (p : Async A) (k : A -> Async B) : Async B :=
  fun w =>
    match p w with
    | (Fulfilled a, w') => k a w'
    | (Rejected e, w') => (Rejected e, w')
    end.

Notation "'let!' x ':=' p 'in' k" := (await p (fun x => k))
  (at level 10, x name, p at level 100, k at level 200).

(** A synchronous read of the world ([Date.now()]). *)
Definition sync {A : Type} (f : World -> A) : Async A :=
  fun w => (Fulfilled (f w), w).

(** [Promise.all([p, q])]: both operations have been started when the array
    is built, so both run to their end whatever the other does; the result is
    fulfilled with both values only when both are, and rejected otherwise.
    The operations are run here in the order they were started.  When both
    reject, [Promise.all] reports the rejection that settles first; the
    embedding reports the one of the operation started first, and no
    statement below is about that case. *)
Definition promiseAll2 {A B : Type} (p : Async A) (q : Async B) : Async (A * B) :=
  fun w =>
    let '(ra, w1) := p w in
    let '(rb, w2) := q w1 in
    match ra, rb with
    | Fulfilled a, Fulfilled b => (Fulfilled (a, b), w2)
    | Rejected e, _ => (Rejected e, w2)
    | Fulfilled _, Rejected e => (Rejected e, w2)
    end.

(** One storage operation, under the fault plan. *)
Definition io {A : Type} (op : World -> A * World) : Async A :=
  fun w =>
    match faults w with
    | Some e :: fs => (Rejected e, setFaults fs w)
    | None :: fs => let '(a, w') := op (setFaults fs w) in (Fulfilled a, w')
    | [] => let '(a, w') := op w in (Fulfilled a, w')
    end.

(** ** Strings: [split(":")] and [join(":")] *)

Definition colon : ascii := ":"%char.

(** [s.split(":")]: the segments between the colons, never an empty array. *)
Fixpoint split (s : string) : list string :=
  match s with
  | EmptyString => [EmptyString]
  | String c rest =>
      if Ascii.eqb c colon then EmptyString :: split rest
      else match split rest with
           | seg :: segs => String c seg :: segs
           | [] => [String c EmptyString]
           end
  end.

(** [segs.join(":")]. *)
Fixpoint join (segs : list string) : string :=
  match segs with
  | [] => EmptyString
  | [seg] => seg
  | seg :: rest => seg +:+ String colon (join rest)
  end.

(** The first two statements of [getTokenUser]:
    [const [idField, ...idRest] = token.identifier.split(":")] and
    [{ field: idField, value: idRest.join(":") }]. *)
Definition parseIdentifier (identifier : string) : Identifier :=
  match split identifier with
  | idField :: idRest => mkIdentifier idField (join idRest)
  | [] => mkIdentifier EmptyString EmptyString
  end.

Fixpoint hasColon (s : string) : bool :=
  match s with
  | EmptyString => false
  | String c rest => Ascii.eqb c colon || hasColon rest
  end.

(** ** The two models *)

(** What the constructor of [Tokens] receives as [models], as far as the
    source leaves it open: how the User model decides that a record matches
    the one-field filter [{ [field]: value }], and the pin the Token schema
    gives a new document. *)
Class Models : Type := mkModels {
  userMatches : string -> string -> RawUser -> bool;
  newPin : World -> string
}.

(** The filters [{ identifier, kind }] and [{ pin, kind }]. *)
Definition byIdentifierKind (i k : string) (t : Token) : bool :=
  String.eqb (identifier t) i && String.eqb (kind t) k.

Definition byPinKind (p k : string) (t : Token) : bool :=
  String.eqb (pin t) p && String.eqb (kind t) k.

(** [doc.deleteOne()] removes the document of the collection that has the
    identity of [doc]. *)
Fixpoint removeById (i : nat) (ts : list Token) : list Token :=
  match ts with
  | [] => []
  | t :: rest => if Nat.eqb (_id t) i then rest else t :: removeById i rest
  end.

Section Tokens.

Context {models : Models}.

(** [models.Token.findOne(filter).exec()]: the first match, or [null]. *)
Definition tokenFindOne (filter : Token -> bool) : Async (option Token) :=
  io (fun w => (List.find filter (tokens w), w)).

(** Modelled from the spec: the Token schema is not among the sources;
    [models.Token.create] stores a document made of the input fields, a pin
    and [createdAt], the time of creation.  The identity taken from the
    counter [nextId] and the clock that stands still during a call are
    devices of the embedding: no general statement below is about the value
    of a new identity or about time passing between a creation and the
    return. *)
Definition tokenCreate (input : TokenInput) : Async Token :=
  io (fun w =>
        let t := mkToken (nextId w) (newPin w) (in_kind input)
                         (in_identifier input) (in_data input)
                         (in_expiresInMs input) (clock w) in
        (t, mkWorld (tokens w ++ [t]) (users w) (clock w) (S (nextId w))
                    (faults w))).

Definition deleteOne (doc : Token) : Async unit :=
  io (fun w => (tt, setTokens (removeById (_id doc) (tokens w)) w)).

(** [models.User.findOne({ [field]: value }).lean()]. *)
Definition userFindOne (f v : string) : Async (option RawUser) :=
  io (fun w => (List.find (userMatches f v) (users w), w)).

(** ** The methods of [Tokens] *)

(** [isExpired({ createdAt, expiresInMs })]; reads [Date.now()]. *)
Definition isExpired (createdAt : Z) (expiresInMs : option Z) (w : World) : bool :=
  match expiresInMs with
  | None => false
  | Some ms =>
      let expiresAt := createdAt + ms in
      expiresAt <? clock w
  end.

Definition isExpiredToken (t : Token) : World -> bool :=
  isExpired (createdAt t) (expiresInMs t).

Definition create (input : TokenInput) : Async Token := tokenCreate input.

Definition getOrCreate (input : TokenInput) : Async Token :=
  let! existing :=
    tokenFindOne (byIdentifierKind (in_identifier input) (in_kind input)) in
  match existing with
  | Some existing =>
      let! expired := sync (isExpiredToken existing) in
      if expired then
        let! both := promiseAll2 (create input) (deleteOne existing) in
        let '(newToken, _removeOld) := both in
        resolve newToken
      else resolve existing
  | None => create input
  end.

Definition validateToken (p k : string) : Async (Result Token TokenError) :=
  let! token := tokenFindOne (byPinKind p k) in
  match token with
  | None => resolve (err token_not_found)
  | Some token =>
      let! expired := sync (isExpiredToken token) in
      if expired then
        let! _ := deleteOne token in
        resolve (err token_expired)
      else resolve (ok token)
  end.

(** The lean user in the shape [auth.getUser] returns:
    [const { _id, ...userRest } = rawUser] and [{ userId: _id, ...userRest }].
    The spread is written after [userId], so an own property [userId] of the
    record overwrites it. *)
Definition toLuciaUser (rawUser : RawUser) : RawUser :=
  let id := prop rawUser "_id" in
  let userRest := delete "_id" rawUser in
  userRest ∪ {[ "userId" := id ]}.

(** [getTokenUser(token)]; the argument is the one field the method picks. *)
Definition getTokenUser (tokenIdentifier : string)
  : Async (Result (Identifier * RawUser) TokenError) :=
  let identifier := parseIdentifier tokenIdentifier in
  let! rawUser := userFindOne (field identifier) (value identifier) in
  match rawUser with
  | None => resolve (err (user_not_found identifier))
  | Some rawUser =>
      if strictNeqString (prop rawUser (field identifier)) (value identifier)
      then resolve (err (identifier_value_mismatch identifier))
      else resolve (ok (identifier, toLuciaUser rawUser))
  end.

(** The identifier an answer of [getTokenUser] carries. *)
Definition answeredIdentifier (r : Result (Identifier * RawUser) TokenError)
  : option Identifier :=
  match r with
  | ok (i, _) => Some i
  | err (user_not_found i) => Some i
  | err (identifier_value_mismatch i) => Some i
  | err _ => None
  end.

Definition validateUserToken (p k : string)
  : Async (Result (RawUser * Token) TokenError) :=
  let! validated := validateToken p k in
  match validated with
  | err e => resolve (err e)
  | ok token =>
      let! userCheck := getTokenUser (identifier token) in
      match userCheck with
      | err e =>
          let! _ := deleteOne token in
          resolve (err e)
      | ok (_, user) => resolve (ok (user, token))
      end
  end.

(** ** Properties the claims speak of *)

Definition uniqueIds (w : World) : Prop := List.NoDup (map _id (tokens w)).

(** What C8 asks of the user returned for a record. *)
Definition idRenamedToUserId (rawUser user : RawUser) : Prop :=
  prop user "userId" = prop rawUser "_id" /\
  user !! "_id" = None /\
  (forall k x, k <> "_id" -> rawUser !! k = Some x -> user !! k = Some x).

(** C8 as the specification states it, at one call. *)
Definition successRenamesId (s : string) (w : World) : Prop :=
  forall rawUser w1 i user w',
    userFindOne (field (parseIdentifier s)) (value (parseIdentifier s)) w
      = (Fulfilled (Some rawUser), w1) ->
    getTokenUser s w = (Fulfilled (ok (i, user)), w') ->
    idRenamedToUserId rawUser user.

Definition sameKey (input : TokenInput) : Token -> bool :=
  byIdentifierKind (in_identifier input) (in_kind input).

(** C3 as the specification states it, at one call: in the branch that
    replaces an expired token, the call succeeds with the new token as soon
    as the creation succeeds. *)
Definition replacementNeedsOnlyCreate (input : TokenInput) (w : World) : Prop :=
  forall existing w1 newToken w2,
    tokenFindOne (sameKey input) w = (Fulfilled (Some existing), w1) ->
    isExpiredToken existing w1 = true ->
    create input w1 = (Fulfilled newToken, w2) ->
    exists w', getOrCreate input w = (Fulfilled newToken, w').

(** Two calls of [getOrCreate] one after the other, the clock reading [later]
    at the second. *)
Definition getOrCreateTwice (input : TokenInput) (later : Z)
  : Async (Token * Token) :=
  let! first := getOrCreate input in
  let! second := (fun w => getOrCreate input (setClock later w)) in
  resolve (first, second).

(** C4 as the specification states it, at one token and one time. *)
Definition expiredFromBoundaryOn (createdAt ms : Z) (w : World) : Prop :=
  isExpired createdAt (Some ms) w = true <-> clock w >= createdAt + ms.

End Tokens.

(** ** Concrete models and worlds *)

(** A User model the way Mongoose runs it with strict queries: a filter on a
    path the schema does not declare is dropped, and the empty filter that is
    left matches every record, so [findOne] returns the first user. *)
Definition declared (paths : list string) (f : string) : bool :=
  existsb (String.eqb f) paths.

Definition strictQueryMatches (paths : list string) (f v : string) (u : RawUser) : bool :=
  if declared paths f then
    match u !! f with
    | Some (VString s) => String.eqb s v
    | _ => false
    end
  else true.

(** Pins of one digit, taken from the counter of identities. *)
Definition digitPin (w : World) : string :=
  String (ascii_of_nat (48 + Nat.modulo (nextId w) 10)) EmptyString.

Definition demoModels : Models :=
  mkModels (strictQueryMatches ["email"; "userId"]) digitPin.

Definition alice : RawUser :=
  {[ "_id" := VObjectId "65a0"; "email" := VString "a@example.com" ]}.

Definition bob : RawUser :=
  {[ "_id" := VObjectId "65a1"; "email" := VString "b@example.com";
     "userId" := VString "legacy-7" ]}.

Definition verifyAlice : Token :=
  mkToken 0%nat "111111" "verify" "email:a@example.com" None (Some 1000) 0.

Definition resetNobody : Token :=
  mkToken 1%nat "222222" "reset" "email:nobody@example.com" None None 0.

Definition verifyBob : Token :=
  mkToken 2%nat "333333" "verify" "email:b@example.com" None (Some 500) 1000.

Definition demoWorld (now : Z) (plan : list (option Exn)) : World :=
  mkWorld [verifyAlice; resetNobody; verifyBob] [alice; bob] now 3%nat plan.

Definition verifyAliceInput : TokenInput :=
  mkInput "verify" "email:a@example.com" None (Some 1000).

(** ** Notions for the whole life cycle *)

(** The number of colons of a string. *)
Fixpoint countColons (s : string) : nat :=
  match s with
  | EmptyString => 0%nat
  | String c rest =>
      if Ascii.eqb c colon then S (countColons rest) else countColons rest
  end.

(** A User model that applies the filter as it is written: a record matches
    when its value at the field is the string asked for. *)
Definition exactMatches (f v : string) (u : RawUser) : bool :=
  match u !! f with
  | Some (VString s) => String.eqb s v
  | _ => false
  end.

Definition exactModels : Models := mkModels exactMatches digitPin.

(** Two worlds that differ at most in what is left of the fault plan. *)
Definition sameData (w0 w : World) : Prop :=
  tokens w0 = tokens w /\ users w0 = users w /\
  clock w0 = clock w /\ nextId w0 = nextId w.

(** No key [(identifier, kind)] has two tokens. *)
Definition atMostOnePerKey (ts : list Token) : Prop :=
  forall i k, (length (List.filter (byIdentifierKind i k) ts) <= 1)%nat.

(** A user with a nickname, a path the schema of the demonstration does not
    declare, and a world whose first user she is. *)
Definition carol : RawUser :=
  {[ "_id" := VObjectId "65a2"; "email" := VString "c@example.com";
     "nick" := VString "caz" ]}.

Definition carolWorld : World :=
  mkWorld [verifyAlice] [carol; alice] 0 1%nat [].

(** The key of a token. *)
Definition keyOf (t : Token) : string * string := (identifier t, kind t).

Definition loginBobInput : TokenInput :=
  mkInput "login" "email:b@example.com" None (Some 60000).

(** The token [getOrCreate] makes of that input at time 0 in the world of
    the demonstration, and that world with the token stored. *)
Definition loginBobToken : Token :=
  mkToken 3%nat "3" "login" "email:b@example.com" None (Some 60000) 0.

Definition demoWorldWithLogin : World :=
  mkWorld [verifyAlice; resetNobody; verifyBob; loginBobToken] [alice; bob]
          0 4%nat [].

(** ** Strings *)

Lemma split_nonempty (s : string) : split s <> [].
Proof.
  destruct s as [|c rest]; simpl; [discriminate|].
  destruct (Ascii.eqb c colon); [discriminate|].
  destruct (split rest); discriminate.
Qed.

Lemma join_split (s : string) : join (split s) = s.
Proof.
  induction s as [|c rest IH]; simpl; [reflexivity|].
  pose proof (split_nonempty rest) as Hne.
  destruct (Ascii.eqb c colon) eqn:Hc.
  - apply Ascii.eqb_eq in Hc. subst c.
    destruct (split rest) as [|seg segs]; [contradiction|].
    change (join (EmptyString :: seg :: segs))
      with (String colon (join (seg :: segs))).
    now rewrite IH.
  - destruct (split rest) as [|seg segs]; [contradiction|].
    destruct segs as [|seg' segs].
    + simpl in *. now rewrite IH.
    + change (join (String c seg :: seg' :: segs))
        with (String c (seg +:+ String colon (join (seg' :: segs)))).
      change (join (seg :: seg' :: segs))
        with (seg +:+ String colon (join (seg' :: segs))) in IH.
      now rewrite IH.
Qed.

Lemma split_field (f v : string) :
  hasColon f = false ->
  split (f +:+ String colon v) = f :: split v.
Proof.
  induction f as [|c f IH]; simpl; intros Hf.
  - reflexivity.
  - apply orb_false_iff in Hf as [Hc Hf].
    rewrite Hc, (IH Hf). reflexivity.
Qed.

Lemma parseIdentifier_field_value (f v : string) :
  hasColon f = false ->
  parseIdentifier (f +:+ String colon v) = mkIdentifier f v.
Proof.
  intros Hf. unfold parseIdentifier.
  rewrite (split_field _ _ Hf), join_split. reflexivity.
Qed.

(** ** The storage layer *)

Lemma io_reliable {A : Type} (op : World -> A * World) (w : World) :
  faults w = [] -> io op w = (Fulfilled (fst (op w)), snd (op w)).
Proof. intros Hf. unfold io. rewrite Hf. now destruct (op w). Qed.

Lemma find_none_iff {A : Type} (f : A -> bool) (l : list A) :
  List.find f l = None <-> (forall x, In x l -> f x = false).
Proof.
  split; [apply List.find_none|].
  induction l as [|a l IH]; simpl; intros H; [reflexivity|].
  rewrite (H a (or_introl eq_refl)). apply IH. intros x Hx. apply H. now right.
Qed.

Lemma byPinKind_true (p k : string) (t : Token) :
  byPinKind p k t = true <-> pin t = p /\ kind t = k.
Proof.
  unfold byPinKind. rewrite andb_true_iff, !String.eqb_eq. reflexivity.
Qed.

Lemma byIdentifierKind_true (i k : string) (t : Token) :
  byIdentifierKind i k t = true <-> identifier t = i /\ kind t = k.
Proof.
  unfold byIdentifierKind. rewrite andb_true_iff, !String.eqb_eq. reflexivity.
Qed.

Lemma removeById_In (i : nat) (ts : list Token) (t : Token) :
  In t (removeById i ts) -> In t ts.
Proof.
  induction ts as [|a ts IH]; simpl; [tauto|].
  destruct (Nat.eqb (_id a) i); simpl; tauto.
Qed.

(** With distinct identities, deleting a stored document removes exactly that
    document. *)
Lemma removeById_spec (ts : list Token) (t t' : Token) :
  List.NoDup (map _id ts) -> In t ts ->
  In t' (removeById (_id t) ts) <-> In t' ts /\ t' <> t.
Proof.
  induction ts as [|a ts IH]; simpl; intros Hnd Hin; [tauto|].
  inversion Hnd as [|x xs Hnotin Hnd']; subst.
  destruct (Nat.eqb (_id a) (_id t)) eqn:Heq.
  - apply Nat.eqb_eq in Heq.
    assert (a = t) as ->.
    { destruct Hin as [|Hin]; [assumption|].
      exfalso. apply Hnotin. rewrite Heq. now apply in_map. }
    split.
    + intros H. split; [now right|]. intros ->. apply Hnotin.
      now apply in_map.
    + intros [[H|H] Hne]; [congruence|assumption].
  - apply Nat.eqb_neq in Heq.
    destruct Hin as [Hin|Hin]; [congruence|]. simpl.
    rewrite (IH Hnd' Hin). split.
    + intros [H|[H1 H2]]; [|tauto]. subst t'. split; [now left|congruence].
    + intros [[H|H] Hne]; [now left|right; tauto].
Qed.

Section TokensFacts.

Context {models : Models}.

(** ** [isExpired] *)

(** C4, as the code has it: for a token with [expiresInMs] present,
    [isExpired] is true exactly when the current time is strictly after
    [createdAt + expiresInMs]; at the boundary, when the current time equals
    [createdAt + expiresInMs], it is false. *)
Theorem isExpired_strictly_after (createdAt ms : Z) (w : World) :
  (isExpired createdAt (Some ms) w = true <-> clock w > createdAt + ms) /\
  isExpired createdAt (Some ms) (setClock (createdAt + ms) w) = false.
Proof.
  unfold isExpired. simpl. split.
  - rewrite Z.ltb_lt. lia.
  - apply Z.ltb_irrefl.
Qed.

(** C5: [isExpired] depends on nothing but [createdAt], [expiresInMs] and the
    current time; it is false whenever [expiresInMs] is absent, whatever
    [createdAt] is, and otherwise true exactly when [createdAt + expiresInMs]
    is strictly before the current time. *)
Theorem isExpired_pure_strict :
  (exists f : Z -> Z -> option Z -> bool,
      forall createdAt expiresInMs w,
        isExpired createdAt expiresInMs w = f (clock w) createdAt expiresInMs) /\
  (forall createdAt w, isExpired createdAt None w = false) /\
  (forall createdAt ms w,
      isExpired createdAt (Some ms) w = true <-> createdAt + ms < clock w).
Proof.
  split; [|split].
  - exists (fun now c e => match e with None => false | Some ms => c + ms <? now end).
    intros c [ms|] w; reflexivity.
  - reflexivity.
  - intros c ms w. unfold isExpired. apply Z.ltb_lt.
Qed.

(** ** Parsing the identifier *)

(** C9: the identifier is split on its first colon only: ["field:value"] with
    no colon in [field] parses to that field and that value, colons of the
    value included; this is the identifier every settled answer of
    [getTokenUser] carries. *)
Theorem parseIdentifier_first_colon (f v : string) :
  hasColon f = false ->
  parseIdentifier (f +:+ ":" +:+ v) = mkIdentifier f v /\
  parseIdentifier "email:a@example.com" = mkIdentifier "email" "a@example.com" /\
  parseIdentifier "meta:a:b" = mkIdentifier "meta" "a:b" /\
  forall w,
    match fst (getTokenUser (f +:+ ":" +:+ v) w) with
    | Fulfilled r => answeredIdentifier r = Some (mkIdentifier f v)
    | Rejected _ => True
    end.
Proof.
  intros Hf.
  assert (parseIdentifier (f +:+ ":" +:+ v) = mkIdentifier f v) as Hp
      by exact (parseIdentifier_field_value f v Hf).
  repeat split; try assumption; try reflexivity.
  intros w. unfold getTokenUser. rewrite Hp. unfold await. simpl.
  destruct (userFindOne f v w) as [[[raw|]|e] w']; simpl; trivial.
  now destruct (strictNeqString (prop raw f) v).
Qed.

(** ** Storage operations that do not fail *)

Lemma tokenFindOne_reliable (filter : Token -> bool) (w : World) :
  faults w = [] ->
  tokenFindOne filter w = (Fulfilled (List.find filter (tokens w)), w).
Proof. intros Hf. unfold tokenFindOne. now rewrite io_reliable. Qed.

Lemma deleteOne_reliable (doc : Token) (w : World) :
  faults w = [] ->
  deleteOne doc w = (Fulfilled tt, setTokens (removeById (_id doc) (tokens w)) w).
Proof. intros Hf. unfold deleteOne. now rewrite io_reliable. Qed.

Lemma userFindOne_reliable (f v : string) (w : World) :
  faults w = [] ->
  userFindOne f v w = (Fulfilled (List.find (userMatches f v) (users w)), w).
Proof. intros Hf. unfold userFindOne. now rewrite io_reliable. Qed.

(** A storage operation settles one way or the other; a read leaves both
    collections as they were. *)
Lemma userFindOne_frame (f v : string) (w : World) :
  tokens (snd (userFindOne f v w)) = tokens w /\
  users (snd (userFindOne f v w)) = users w.
Proof.
  unfold userFindOne, io.
  destruct (faults w) as [|[e|] fs]; simpl; auto.
Qed.

Lemma validateToken_reliable (p k : string) (w : World) :
  faults w = [] ->
  validateToken p k w =
  match List.find (byPinKind p k) (tokens w) with
  | None => (Fulfilled (err token_not_found), w)
  | Some t =>
      if isExpiredToken t w
      then (Fulfilled (err token_expired),
            setTokens (removeById (_id t) (tokens w)) w)
      else (Fulfilled (ok t), w)
  end.
Proof.
  intros Hf. unfold validateToken, await.
  rewrite (tokenFindOne_reliable _ _ Hf).
  destruct (List.find (byPinKind p k) (tokens w)) as [t|]; [|reflexivity].
  unfold sync. destruct (isExpiredToken t w); [|reflexivity].
  now rewrite (deleteOne_reliable _ _ Hf).
Qed.

Lemma getTokenUser_reliable (s : string) (w : World) :
  faults w = [] ->
  snd (getTokenUser s w) = w.
Proof.
  intros Hf. unfold getTokenUser, await.
  rewrite (userFindOne_reliable _ _ _ Hf).
  destruct (List.find _ (users w)) as [raw|]; [|reflexivity].
  now destruct (strictNeqString _ _).
Qed.

(** ** [validateToken] *)

(** C1: with a storage layer that answers, [validateToken] fails with
    [token_not_found] when no stored token has the pin and the kind; when the
    token found is expired it deletes exactly that token and fails with
    [token_expired]; when the token found is not expired it returns it and
    leaves the store alone.  A token is found as soon as one matches. *)
Theorem validateToken_outcomes (p k : string) (w : World) :
  faults w = [] -> uniqueIds w ->
  ((forall t, In t (tokens w) -> ~ (pin t = p /\ kind t = k)) ->
   validateToken p k w = (Fulfilled (err token_not_found), w)) /\
  (forall t, List.find (byPinKind p k) (tokens w) = Some t ->
     (isExpiredToken t w = true ->
      exists w',
        validateToken p k w = (Fulfilled (err token_expired), w') /\
        (forall t', In t' (tokens w') <-> In t' (tokens w) /\ t' <> t) /\
        users w' = users w) /\
     (isExpiredToken t w = false ->
      validateToken p k w = (Fulfilled (ok t), w))) /\
  ((exists t, In t (tokens w) /\ pin t = p /\ kind t = k) ->
   exists t, List.find (byPinKind p k) (tokens w) = Some t /\
             In t (tokens w) /\ pin t = p /\ kind t = k).
Proof.
  intros Hf Hids. rewrite (validateToken_reliable _ _ _ Hf).
  split; [|split]; cycle 2.
  { intros [t [Hin Hm]].
    destruct (List.find (byPinKind p k) (tokens w)) as [t0|] eqn:Hfind.
    - exists t0. apply List.find_some in Hfind as [Hin0 Hm0].
      apply byPinKind_true in Hm0. tauto.
    - exfalso. pose proof (List.find_none _ _ Hfind t Hin) as Hno.
      apply byPinKind_true in Hm. congruence. }
  - intros Hnone.
    assert (List.find (byPinKind p k) (tokens w) = None) as ->; [|reflexivity].
    apply find_none_iff. intros t Ht.
    destruct (byPinKind p k t) eqn:Hm; [|reflexivity].
    exfalso. apply (Hnone t Ht). now apply byPinKind_true.
  - intros t Hfind. rewrite Hfind. split; intros Hexp; rewrite Hexp.
    + eexists. split; [reflexivity|]. split; [|reflexivity].
      intros t'. simpl. apply removeById_spec; [exact Hids|].
      now apply List.find_some in Hfind.
    + reflexivity.
Qed.

(** ** [getTokenUser] *)

Lemma strictNeqString_true (x : jsval) (s : string) :
  x <> VString s -> strictNeqString x s = true.
Proof.
  intros Hne. destruct x as [| | | |s'|]; simpl; try reflexivity.
  apply negb_true_iff. apply String.eqb_neq. congruence.
Qed.

(** C7: when the User model returns a record whose value at the parsed field
    is not the parsed value, be it absent, of another type or another string,
    [getTokenUser] fails with [identifier_value_mismatch], which carries the
    parsed identifier, and does not succeed. *)
Theorem getTokenUser_mismatch (s : string) (w w1 : World) (rawUser : RawUser) :
  userFindOne (field (parseIdentifier s)) (value (parseIdentifier s)) w
    = (Fulfilled (Some rawUser), w1) ->
  prop rawUser (field (parseIdentifier s))
    <> VString (value (parseIdentifier s)) ->
  getTokenUser s w
    = (Fulfilled (err (identifier_value_mismatch (parseIdentifier s))), w1).
Proof.
  intros Hfind Hneq. unfold getTokenUser, await. rewrite Hfind.
  now rewrite (strictNeqString_true _ _ Hneq).
Qed.

(** C10: on every outcome [getTokenUser] leaves the token collection and the
    user collection exactly as they were. *)
Theorem getTokenUser_frame (s : string) (w : World) :
  tokens (snd (getTokenUser s w)) = tokens w /\
  users (snd (getTokenUser s w)) = users w.
Proof.
  unfold getTokenUser, await.
  pose proof (userFindOne_frame (field (parseIdentifier s))
                                (value (parseIdentifier s)) w) as Hframe.
  destruct (userFindOne _ _ w) as [[[raw|]|e] w1]; simpl in *; trivial.
  now destruct (strictNeqString _ _).
Qed.

(** ** The user handed back *)

Lemma toLuciaUser_lookup (rawUser : RawUser) (k : string) :
  toLuciaUser rawUser !! k =
  if String.eqb k "_id" then None
  else if String.eqb k "userId"
       then Some (default (prop rawUser "_id") (rawUser !! "userId"))
       else rawUser !! k.
Proof.
  unfold toLuciaUser. rewrite lookup_union.
  destruct (String.eqb k "_id") eqn:Hid.
  - apply String.eqb_eq in Hid. subst k.
    rewrite lookup_delete_eq, lookup_singleton_ne; [reflexivity|discriminate].
  - apply String.eqb_neq in Hid.
    rewrite lookup_delete_ne by congruence.
    destruct (String.eqb k "userId") eqn:Hu.
    + apply String.eqb_eq in Hu. subst k.
      rewrite lookup_singleton_eq. now destruct (rawUser !! "userId").
    + apply String.eqb_neq in Hu.
      rewrite lookup_singleton_ne by congruence.
      now destruct (rawUser !! k).
Qed.

(** C8, as the code has it: when [getTokenUser] succeeds on a record, the
    user returned has no [_id] field, keeps every other field of the record
    with its value, a field [userId] of the record included, and its [userId]
    is the [_id] of the record when the record has no field [userId] of its
    own. *)
Theorem getTokenUser_user_shape (s : string) (w w1 : World) (rawUser : RawUser) :
  userFindOne (field (parseIdentifier s)) (value (parseIdentifier s)) w
    = (Fulfilled (Some rawUser), w1) ->
  strictNeqString (prop rawUser (field (parseIdentifier s)))
                  (value (parseIdentifier s)) = false ->
  exists user,
    getTokenUser s w = (Fulfilled (ok (parseIdentifier s, user)), w1) /\
    user !! "_id" = None /\
    (forall k x, k <> "_id" -> rawUser !! k = Some x -> user !! k = Some x) /\
    (forall k, k <> "userId" -> rawUser !! k = None -> user !! k = None) /\
    (rawUser !! "userId" = None -> prop user "userId" = prop rawUser "_id").
Proof.
  intros Hfind Heq. exists (toLuciaUser rawUser).
  split; [unfold getTokenUser, await; now rewrite Hfind, Heq|].
  split; [now rewrite toLuciaUser_lookup|].
  split; [|split].
  - intros k x Hk Hx. rewrite toLuciaUser_lookup.
    apply String.eqb_neq in Hk. rewrite Hk.
    destruct (String.eqb k "userId") eqn:Hu; [|exact Hx].
    apply String.eqb_eq in Hu. subst k. now rewrite Hx.
  - intros k Hk Hx. rewrite toLuciaUser_lookup.
    apply String.eqb_neq in Hk. rewrite Hk.
    now destruct (String.eqb k "_id").
  - intros Hnone. unfold prop at 1.
    rewrite toLuciaUser_lookup. simpl. now rewrite Hnone.
Qed.

(** ** [validateUserToken] *)

(** C2: with a storage layer that answers, [validateUserToken] hands back the
    error of [validateToken] as it is; when [getTokenUser] fails on the token
    validated, it deletes exactly that token and hands back that error as it
    is; when both succeed it returns the user and the token. *)
Theorem validateUserToken_outcomes (p k : string) (w : World) :
  faults w = [] -> uniqueIds w ->
  (forall e w1,
      validateToken p k w = (Fulfilled (err e), w1) ->
      validateUserToken p k w = (Fulfilled (err e), w1)) /\
  (forall t w1,
      validateToken p k w = (Fulfilled (ok t), w1) ->
      (forall e w2,
          getTokenUser (identifier t) w1 = (Fulfilled (err e), w2) ->
          exists w3,
            validateUserToken p k w = (Fulfilled (err e), w3) /\
            (forall t', In t' (tokens w3) <-> In t' (tokens w) /\ t' <> t) /\
            users w3 = users w) /\
      (forall i user w2,
          getTokenUser (identifier t) w1 = (Fulfilled (ok (i, user)), w2) ->
          validateUserToken p k w = (Fulfilled (ok (user, t)), w2))).
Proof.
  intros Hf Hids. split.
  - intros e w1 Hv. unfold validateUserToken, await. now rewrite Hv.
  - intros t w1 Hv.
    assert (w1 = w /\ In t (tokens w)) as [-> Hin].
    { rewrite (validateToken_reliable _ _ _ Hf) in Hv.
      destruct (List.find (byPinKind p k) (tokens w)) as [t0|] eqn:Hfind;
        [|discriminate].
      destruct (isExpiredToken t0 w); [discriminate|].
      inversion Hv; subst. split; [reflexivity|].
      now apply List.find_some in Hfind. }
    split.
    + intros e w2 Hg.
      pose proof (getTokenUser_reliable (identifier t) w Hf) as Hw.
      rewrite Hg in Hw. simpl in Hw. subst w2.
      eexists. split.
      * unfold validateUserToken, await. rewrite Hv, Hg.
        rewrite (deleteOne_reliable _ _ Hf). reflexivity.
      * split; [|reflexivity]. intros t'. simpl.
        now apply removeById_spec.
    + intros i user w2 Hg. unfold validateUserToken, await.
      now rewrite Hv, Hg.
Qed.

(** ** [getOrCreate] *)

(** C3, as the code has it: in the branch that replaces an expired token,
    when the creation succeeds the call returns the new token if the deletion
    of the expired token succeeds too; if that deletion fails, the call fails
    with the error of the deletion, [Promise.all] rejecting as soon as one of
    its promises does. *)
Theorem getOrCreate_replacement
    (input : TokenInput) (w w1 w2 : World) (existing newToken : Token) :
  tokenFindOne (sameKey input) w = (Fulfilled (Some existing), w1) ->
  isExpiredToken existing w1 = true ->
  create input w1 = (Fulfilled newToken, w2) ->
  (forall w3, deleteOne existing w2 = (Fulfilled tt, w3) ->
              getOrCreate input w = (Fulfilled newToken, w3)) /\
  (forall e w3, deleteOne existing w2 = (Rejected e, w3) ->
                getOrCreate input w = (Rejected e, w3)).
Proof.
  intros Hfind Hexp Hcreate.
  split; [intros w3 Hdel|intros e w3 Hdel];
    unfold getOrCreate, await; fold (sameKey input);
    rewrite Hfind; unfold sync; rewrite Hexp;
    unfold promiseAll2; now rewrite Hcreate, Hdel.
Qed.

Lemma getOrCreate_live (input : TokenInput) (w : World) (t : Token) :
  faults w = [] ->
  List.find (sameKey input) (tokens w) = Some t ->
  isExpiredToken t w = false ->
  getOrCreate input w = (Fulfilled t, w).
Proof.
  intros Hf Hfind Hlive. unfold getOrCreate, await. fold (sameKey input).
  rewrite (tokenFindOne_reliable _ _ Hf), Hfind. unfold sync.
  now rewrite Hlive.
Qed.

(** C6: when [getOrCreate] finds a token that is not expired it returns that
    token and leaves the store as it was; two calls in a row for the same
    key, the token unexpired at both, return that same token twice, and a
    store that held exactly one token for the key still holds exactly that
    one. *)
Theorem getOrCreate_reuses_live
    (input : TokenInput) (w : World) (t : Token) (later : Z) :
  faults w = [] ->
  List.find (sameKey input) (tokens w) = Some t ->
  isExpiredToken t w = false ->
  isExpiredToken t (setClock later w) = false ->
  getOrCreate input w = (Fulfilled t, w) /\
  exists w',
    getOrCreateTwice input later w = (Fulfilled (t, t), w') /\
    tokens w' = tokens w /\ users w' = users w /\
    (List.filter (sameKey input) (tokens w) = [t] ->
     List.filter (sameKey input) (tokens w') = [t]).
Proof.
  intros Hf Hfind Hlive Hlater.
  pose proof (getOrCreate_live input w t Hf Hfind Hlive) as Hfirst.
  split; [exact Hfirst|].
  exists (setClock later w).
  split; [|simpl; auto].
  unfold getOrCreateTwice, await. rewrite Hfirst.
  now rewrite (getOrCreate_live input (setClock later w) t Hf Hfind Hlater).
Qed.

End TokensFacts.

(** ** The claims at concrete calls *)

Lemma demoWorld_uniqueIds (now : Z) (plan : list (option Exn)) :
  uniqueIds (demoWorld now plan).
Proof.
  unfold uniqueIds. simpl.
  repeat (constructor; [simpl; intuition discriminate|]). constructor.
Qed.

(** C4 fails at the boundary: a token created at 1000 that lasts 500 is not
    expired when the clock reads 1500. *)
Lemma isExpired_boundary_counterexample :
  ~ expiredFromBoundaryOn 1000 500 (demoWorld 1500 []).
Proof.
  unfold expiredFromBoundaryOn. simpl. intros [_ H].
  assert (1500 >= 1000 + 500) as Hge by lia.
  specialize (H Hge). vm_compute in H. discriminate.
Qed.

(** C3 fails when the deletion does: the lookup and the creation succeed, the
    deletion is refused, and the call is rejected. *)
Lemma getOrCreate_replacement_counterexample :
  ~ replacementNeedsOnlyCreate (models := demoModels) verifyAliceInput
      (demoWorld 5000 [None; None; Some "delete refused"]).
Proof.
  intros H.
  destruct (H verifyAlice _ _ _ eq_refl eq_refl eq_refl) as [w' Hw'].
  vm_compute in Hw'. discriminate.
Qed.

(** C8 fails on a record that has a field [userId] of its own: that field
    overwrites the renamed identity. *)
Lemma getTokenUser_userId_counterexample :
  ~ successRenamesId (models := demoModels) "email:b@example.com"
      (demoWorld 0 []).
Proof.
  intros H.
  destruct (H bob _ _ _ _ eq_refl eq_refl) as [Hid _].
  vm_compute in Hid. discriminate.
Qed.

(** C1 at a call: at 5000 the token of pin 111111, created at 0 for 1000 ms,
    is expired; it is deleted and the call fails with [token_expired]. *)
Lemma validateToken_outcomes_witness :
  faults (demoWorld 5000 []) = [] /\
  uniqueIds (demoWorld 5000 []) /\
  exists w',
    validateToken "111111" "verify" (demoWorld 5000 [])
      = (Fulfilled (err token_expired), w') /\
    (forall t', In t' (tokens w') <->
                In t' (tokens (demoWorld 5000 [])) /\ t' <> verifyAlice) /\
    users w' = users (demoWorld 5000 []).
Proof.
  split; [reflexivity|]. split; [apply demoWorld_uniqueIds|].
  destruct (validateToken_outcomes "111111" "verify"
              (demoWorld 5000 []) eq_refl (demoWorld_uniqueIds _ _))
    as [_ [Hfound _]].
  destruct (Hfound verifyAlice eq_refl) as [Hexpired _].
  apply Hexpired. reflexivity.
Defined.

(** C2 at a call: the token of pin 222222 is live and names a user nobody
    has; it is deleted and the call fails with [user_not_found]. *)
Lemma validateUserToken_outcomes_witness :
  faults (demoWorld 0 []) = [] /\
  uniqueIds (demoWorld 0 []) /\
  exists w3,
    validateUserToken (models := demoModels) "222222" "reset" (demoWorld 0 [])
      = (Fulfilled
           (err (user_not_found (mkIdentifier "email" "nobody@example.com"))),
         w3) /\
    (forall t', In t' (tokens w3) <->
                In t' (tokens (demoWorld 0 [])) /\ t' <> resetNobody) /\
    users w3 = users (demoWorld 0 []).
Proof.
  split; [reflexivity|]. split; [apply demoWorld_uniqueIds|].
  destruct (validateUserToken_outcomes (models := demoModels) "222222" "reset"
              (demoWorld 0 []) eq_refl (demoWorld_uniqueIds _ _))
    as [_ Hvalid].
  destruct (Hvalid resetNobody (demoWorld 0 []) eq_refl) as [Hfails _].
  apply (Hfails _ (demoWorld 0 [])). reflexivity.
Defined.

(** C3 at two calls on an expired token: with a deletion that succeeds the
    new token is returned, with one that fails the call is rejected. *)
Lemma getOrCreate_replacement_witness :
  (exists w3,
      getOrCreate (models := demoModels) verifyAliceInput
        (demoWorld 5000 [None; None; None])
      = (Fulfilled (mkToken 3%nat "3" "verify" "email:a@example.com" None
                            (Some 1000) 5000), w3)) /\
  (exists w3,
      getOrCreate (models := demoModels) verifyAliceInput
        (demoWorld 5000 [None; None; Some "delete refused"])
      = (Rejected "delete refused", w3)).
Proof.
  split.
  - eexists.
    refine (proj1 (getOrCreate_replacement (models := demoModels)
                     verifyAliceInput (demoWorld 5000 [None; None; None])
                     _ _ verifyAlice _ eq_refl eq_refl eq_refl) _ _).
    reflexivity.
  - eexists.
    refine (proj2 (getOrCreate_replacement (models := demoModels)
                     verifyAliceInput
                     (demoWorld 5000 [None; None; Some "delete refused"])
                     _ _ verifyAlice _ eq_refl eq_refl eq_refl) _ _ _).
    reflexivity.
Defined.

(** C6 at a call: at 500 and again at 900 the live token is returned, and the
    store holds that one token for the key. *)
Lemma getOrCreate_reuses_live_witness :
  getOrCreate (models := demoModels) verifyAliceInput (demoWorld 500 [])
    = (Fulfilled verifyAlice, demoWorld 500 []) /\
  exists w',
    getOrCreateTwice (models := demoModels) verifyAliceInput 900
                     (demoWorld 500 [])
      = (Fulfilled (verifyAlice, verifyAlice), w') /\
    tokens w' = tokens (demoWorld 500 []) /\
    users w' = users (demoWorld 500 []) /\
    List.filter (sameKey verifyAliceInput) (tokens w') = [verifyAlice].
Proof.
  destruct (getOrCreate_reuses_live (models := demoModels) verifyAliceInput
              (demoWorld 500 []) verifyAlice 900
              eq_refl eq_refl eq_refl eq_refl)
    as [Hfirst [w' [Htwice [Htokens [Husers Hone]]]]].
  split; [exact Hfirst|].
  exists w'. repeat split; try assumption.
  apply Hone. reflexivity.
Defined.

(** C7 at two calls: [phone] and [nick] are no paths of the schema, so the
    first user comes back; Alice has no field [phone], and the [nick] of
    Carol is another string than the one asked for. *)
Lemma getTokenUser_mismatch_witness :
  getTokenUser (models := demoModels) "phone:555" (demoWorld 0 [])
    = (Fulfilled (err (identifier_value_mismatch (mkIdentifier "phone" "555"))),
       demoWorld 0 []) /\
  getTokenUser (models := demoModels) "nick:zed" carolWorld
    = (Fulfilled (err (identifier_value_mismatch (mkIdentifier "nick" "zed"))),
       carolWorld).
Proof.
  split.
  - apply (getTokenUser_mismatch (models := demoModels) "phone:555"
             (demoWorld 0 []) (demoWorld 0 []) alice);
      [reflexivity|vm_compute; discriminate].
  - apply (getTokenUser_mismatch (models := demoModels) "nick:zed"
             carolWorld carolWorld carol);
      [reflexivity|vm_compute; discriminate].
Defined.

(** C8 at a call on a record without a field [userId]. *)
Lemma getTokenUser_user_shape_witness :
  exists user,
    getTokenUser (models := demoModels) "email:a@example.com" (demoWorld 0 [])
      = (Fulfilled (ok (mkIdentifier "email" "a@example.com", user)),
         demoWorld 0 []) /\
    user !! "_id" = None /\
    user !! "email" = Some (VString "a@example.com") /\
    prop user "userId" = VObjectId "65a0".
Proof.
  destruct (getTokenUser_user_shape (models := demoModels)
              "email:a@example.com" (demoWorld 0 []) (demoWorld 0 []) alice
              eq_refl eq_refl)
    as [user [Hcall [Hnoid [Hkeeps [_ Hrenamed]]]]].
  exists user. split; [exact Hcall|]. split; [exact Hnoid|]. split.
  - apply Hkeeps; [discriminate|reflexivity].
  - rewrite Hrenamed; reflexivity.
Defined.

(** C9 at [meta:a:b]. *)
Lemma parseIdentifier_first_colon_witness :
  hasColon "meta" = false /\
  parseIdentifier ("meta" +:+ ":" +:+ "a:b") = mkIdentifier "meta" "a:b".
Proof.
  split; [reflexivity|].
  exact (proj1 (parseIdentifier_first_colon (models := demoModels)
                  "meta" "a:b" eq_refl)).
Defined.

(** * The rest of the life cycle *)

(** ** Splitting and joining *)

Lemma hasColon_app_colon (a b : string) :
  hasColon (a +:+ String colon b) = true.
Proof.
  induction a as [|c a IH]; simpl.
  - reflexivity.
  - rewrite IH. apply orb_true_r.
Qed.

Lemma split_segments_clean (s : string) :
  List.Forall (fun seg => hasColon seg = false) (split s).
Proof.
  induction s as [|c rest IH]; simpl.
  - repeat constructor.
  - destruct (Ascii.eqb c colon) eqn:Hc.
    + constructor; [reflexivity|exact IH].
    + destruct (split rest) as [|seg segs].
      * repeat constructor. simpl. now rewrite Hc.
      * inversion IH; subst. constructor; [|assumption].
        simpl. now rewrite Hc.
Qed.

Lemma split_length (s : string) :
  length (split s) = S (countColons s).
Proof.
  induction s as [|c rest IH]; simpl; [reflexivity|].
  destruct (Ascii.eqb c colon).
  - simpl. now rewrite IH.
  - destruct (split rest); simpl in *; [discriminate|exact IH].
Qed.

(** [split(":")] cuts a string into one more segment than it has colons, no
    segment holds a colon, and [join(":")] puts the string back together. *)
Theorem split_join_roundtrip (s : string) :
  join (split s) = s /\
  length (split s) = S (countColons s) /\
  List.Forall (fun seg => hasColon seg = false) (split s).
Proof.
  split; [apply join_split|].
  split; [apply split_length|apply split_segments_clean].
Qed.

(** The parsed field never holds a colon; an identifier with a colon is its
    field, a colon and its value, and an identifier without one is parsed to
    itself as the field with the empty string as the value. *)
Theorem parseIdentifier_roundtrip (s : string) :
  hasColon (field (parseIdentifier s)) = false /\
  (if hasColon s
   then field (parseIdentifier s) +:+ ":" +:+ value (parseIdentifier s) = s
   else parseIdentifier s = mkIdentifier s EmptyString).
Proof.
  unfold parseIdentifier.
  pose proof (join_split s) as Hjoin.
  pose proof (split_segments_clean s) as Hclean.
  pose proof (split_nonempty s) as Hne.
  destruct (split s) as [|idField idRest]; [contradiction|].
  inversion Hclean as [|x xs Hfield _]; subst x xs. simpl.
  split; [exact Hfield|].
  destruct idRest as [|seg segs].
  - simpl in Hjoin. subst idField. now rewrite Hfield.
  - change (join (idField :: seg :: segs))
      with (idField +:+ String colon (join (seg :: segs))) in Hjoin.
    assert (hasColon s = true) as ->
        by (rewrite <- Hjoin; apply hasColon_app_colon).
    exact Hjoin.
Qed.

Section LifeCycle.

Context {models : Models}.

(** ** The storage layer under any fault plan *)

Lemma io_cases {A : Type} (op : World -> A * World) (w : World) :
  (exists e fs, faults w = Some e :: fs /\
                io op w = (Rejected e, setFaults fs w)) \/
  (exists w0, sameData w0 w /\ faults w0 = tl (faults w) /\
              io op w = (Fulfilled (fst (op w0)), snd (op w0))).
Proof.
  unfold io. destruct (faults w) as [|[e|] fs] eqn:Hplan.
  - right. exists w. rewrite Hplan. unfold sameData.
    destruct (op w). auto.
  - left. eauto.
  - right. exists (setFaults fs w). unfold sameData. simpl.
    destruct (op (setFaults fs w)). auto.
Qed.

Lemma isExpiredToken_sameData (t : Token) (w0 w : World) :
  sameData w0 w -> isExpiredToken t w0 = isExpiredToken t w.
Proof.
  intros (_ & _ & Hclock & _). unfold isExpiredToken, isExpired.
  now rewrite Hclock.
Qed.

Lemma tokenFindOne_cases (filter : Token -> bool) (w : World) :
  (exists e fs, faults w = Some e :: fs /\
                tokenFindOne filter w = (Rejected e, setFaults fs w)) \/
  (exists w0, sameData w0 w /\ faults w0 = tl (faults w) /\
              tokenFindOne filter w
              = (Fulfilled (List.find filter (tokens w)), w0)).
Proof.
  unfold tokenFindOne.
  destruct (io_cases (fun w => (List.find filter (tokens w), w)) w)
    as [Hrej|(w0 & Hsame & Hplan & Hio)]; [now left|right].
  exists w0. simpl in Hio. destruct Hsame as (Ht & Hrest).
  rewrite Ht in Hio. unfold sameData. auto.
Qed.

Lemma deleteOne_cases (doc : Token) (w : World) :
  (exists e fs, faults w = Some e :: fs /\
                deleteOne doc w = (Rejected e, setFaults fs w)) \/
  (exists w', deleteOne doc w = (Fulfilled tt, w') /\
              tokens w' = removeById (_id doc) (tokens w) /\
              users w' = users w /\ clock w' = clock w /\
              nextId w' = nextId w /\ faults w' = tl (faults w)).
Proof.
  unfold deleteOne.
  destruct (io_cases
              (fun w => (tt, setTokens (removeById (_id doc) (tokens w)) w)) w)
    as [Hrej|(w0 & (Ht & Hu & Hc & Hn) & Hplan & Hio)]; [now left|right].
  eexists. split; [exact Hio|]. simpl. rewrite Ht. auto.
Qed.

Lemma userFindOne_cases (f v : string) (w : World) :
  (exists e fs, faults w = Some e :: fs /\
                userFindOne f v w = (Rejected e, setFaults fs w)) \/
  (exists w0, sameData w0 w /\ faults w0 = tl (faults w) /\
              userFindOne f v w
              = (Fulfilled (List.find (userMatches f v) (users w)), w0)).
Proof.
  unfold userFindOne.
  destruct (io_cases (fun w => (List.find (userMatches f v) (users w), w)) w)
    as [Hrej|(w0 & Hsame & Hplan & Hio)]; [now left|right].
  exists w0. simpl in Hio. destruct Hsame as (Ht & Hu & Hrest).
  rewrite Hu in Hio. unfold sameData. auto.
Qed.

Lemma tokenCreate_cases (input : TokenInput) (w : World) :
  (exists e fs, faults w = Some e :: fs /\
                tokenCreate input w = (Rejected e, setFaults fs w)) \/
  (exists t w',
      tokenCreate input w = (Fulfilled t, w') /\
      tokens w' = (tokens w ++ [t])%list /\
      _id t = nextId w /\ kind t = in_kind input /\
      identifier t = in_identifier input /\ data t = in_data input /\
      expiresInMs t = in_expiresInMs input /\ createdAt t = clock w /\
      users w' = users w /\ clock w' = clock w /\
      nextId w' = S (nextId w) /\ faults w' = tl (faults w)).
Proof.
  unfold tokenCreate, io.
  destruct (faults w) as [|[e|] fs] eqn:Hplan.
  - right. eexists _, _. split; [reflexivity|]. simpl. auto 15.
  - left. eauto.
  - right. eexists _, _. split; [reflexivity|]. simpl. auto 15.
Qed.

(** ** [isExpired] over time *)

(** Expiry is for good: a token that is expired stays expired at every later
    reading of the clock. *)
Theorem isExpired_monotone
    (createdAt : Z) (expiresInMs : option Z) (w w' : World) :
  clock w <= clock w' ->
  isExpired createdAt expiresInMs w = true ->
  isExpired createdAt expiresInMs w' = true.
Proof.
  unfold isExpired. destruct expiresInMs as [ms|]; [|discriminate].
  simpl. rewrite !Z.ltb_lt. lia.
Qed.

(** ** [validateToken] under any fault plan *)

Lemma validateToken_cases (p k : string) (w : World) :
  (exists e w', validateToken p k w = (Rejected e, w') /\
                tokens w' = tokens w /\ users w' = users w) \/
  (exists w', validateToken p k w = (Fulfilled (err token_not_found), w') /\
              sameData w' w /\ faults w' = tl (faults w) /\
              List.find (byPinKind p k) (tokens w) = None) \/
  (exists t w', validateToken p k w = (Fulfilled (err token_expired), w') /\
                List.find (byPinKind p k) (tokens w) = Some t /\
                isExpiredToken t w = true /\
                tokens w' = removeById (_id t) (tokens w) /\
                users w' = users w /\ clock w' = clock w /\
                nextId w' = nextId w /\ faults w' = tl (tl (faults w))) \/
  (exists t w', validateToken p k w = (Fulfilled (ok t), w') /\
                List.find (byPinKind p k) (tokens w) = Some t /\
                isExpiredToken t w = false /\
                sameData w' w /\ faults w' = tl (faults w)).
Proof.
  unfold validateToken, await.
  destruct (tokenFindOne_cases (byPinKind p k) w)
    as [(e & fs & Hplan & ->)|(w0 & Hsame & Hplan & ->)].
  { left. exists e, (setFaults fs w). auto. }
  destruct (List.find (byPinKind p k) (tokens w)) as [t|] eqn:Hfind.
  2:{ right. left. exists w0. auto. }
  unfold sync. rewrite (isExpiredToken_sameData t w0 w Hsame).
  destruct (isExpiredToken t w) eqn:Hexp.
  2:{ right. right. right. exists t, w0. auto. }
  destruct Hsame as (Ht & Hu & Hc & Hn).
  destruct (deleteOne_cases t w0)
    as [(e & fs & Hplan' & ->)|(w' & -> & Ht' & Hu' & Hc' & Hn' & Hf')].
  - left. exists e, (setFaults fs w0). simpl. auto.
  - right. right. left. exists t, w'. rewrite Ht', Ht, Hu', Hc', Hn', Hf', Hplan.
    auto 10.
Qed.

Lemma validateToken_ok_inv (p k : string) (w w' : World) (t : Token) :
  validateToken p k w = (Fulfilled (ok t), w') ->
  List.find (byPinKind p k) (tokens w) = Some t /\
  isExpiredToken t w = false /\ sameData w' w.
Proof.
  intros Hcall.
  destruct (validateToken_cases p k w)
    as [(e & w1 & H & _)|[(w1 & H & _)|[(t1 & w1 & H & _)|
        (t1 & w1 & H & Hfind & Hlive & Hsame & _)]]];
    rewrite H in Hcall; inversion Hcall; subst. auto.
Qed.

Lemma validateToken_untouched (p k : string) (w : World) :
  users (snd (validateToken p k w)) = users w /\
  (forall t, In t (tokens (snd (validateToken p k w))) -> In t (tokens w)).
Proof.
  destruct (validateToken_cases p k w)
    as [(e & w1 & H & Ht & Hu)|[(w1 & H & (Ht & Hu & _) & _)|
        [(t1 & w1 & H & _ & _ & Ht & Hu & _)|
         (t1 & w1 & H & _ & _ & (Ht & Hu & _) & _)]]];
    rewrite H; simpl; rewrite Ht; split; auto.
  apply removeById_In.
Qed.

(** [validateToken] answers [ok] only with a stored token that has the pin
    and the kind asked for and is not expired, and then it has changed
    neither collection; this holds under every fault plan. *)
Theorem validateToken_sound (p k : string) (w w' : World) (t : Token) :
  validateToken p k w = (Fulfilled (ok t), w') ->
  In t (tokens w) /\ pin t = p /\ kind t = k /\
  isExpiredToken t w = false /\
  tokens w' = tokens w /\ users w' = users w.
Proof.
  intros Hcall.
  destruct (validateToken_cases p k w)
    as [(e & w1 & H & _)|[(w1 & H & _)|[(t1 & w1 & H & _)|
        (t1 & w1 & H & Hfind & Hlive & (Ht & Hu & _) & _)]]];
    rewrite H in Hcall; inversion Hcall; subst.
  apply List.find_some in Hfind as [Hin Hm].
  apply byPinKind_true in Hm. tauto.
Qed.

(** [validateToken] never adds a token and never touches the users; it
    leaves the token collection as it was unless it answers
    [token_expired]. *)
Theorem validateToken_frame (p k : string) (w : World) :
  users (snd (validateToken p k w)) = users w /\
  (forall t, In t (tokens (snd (validateToken p k w))) -> In t (tokens w)) /\
  (fst (validateToken p k w) <> Fulfilled (err token_expired) ->
   tokens (snd (validateToken p k w)) = tokens w).
Proof.
  destruct (validateToken_cases p k w)
    as [(e & w1 & H & Ht & Hu)|[(w1 & H & (Ht & Hu & _) & _)|
        [(t1 & w1 & H & _ & _ & Ht & Hu & _)|
         (t1 & w1 & H & _ & _ & (Ht & Hu & _) & _)]]];
    rewrite H; simpl; rewrite ?Ht; auto.
  split; [exact Hu|]. split; [apply removeById_In|]. congruence.
Qed.

(** When the deletion of an expired token is refused, [validateToken] is
    rejected with the storage error instead of answering [token_expired],
    and the expired token stays in the store. *)
Theorem validateToken_delete_refused
    (p k : string) (w : World) (t : Token) (e : Exn) (fs : list (option Exn)) :
  faults w = None :: Some e :: fs ->
  List.find (byPinKind p k) (tokens w) = Some t ->
  isExpiredToken t w = true ->
  validateToken p k w = (Rejected e, setFaults fs w) /\
  In t (tokens (setFaults fs w)).
Proof.
  intros Hplan Hfind Hexp. split.
  - unfold validateToken, await, tokenFindOne, deleteOne, io, sync.
    rewrite Hplan. simpl. rewrite Hfind. simpl.
    change (isExpiredToken t (setFaults (Some e :: fs) w))
      with (isExpiredToken t w).
    rewrite Hexp. reflexivity.
  - simpl. now apply List.find_some in Hfind.
Qed.

(** Once [validateToken] has answered [token_expired] for the only token of a
    pin and kind, the next call answers [token_not_found]. *)
Theorem validateToken_expired_then_gone (p k : string) (w : World) (t : Token) :
  faults w = [] -> uniqueIds w ->
  List.filter (byPinKind p k) (tokens w) = [t] ->
  isExpiredToken t w = true ->
  exists w1,
    validateToken p k w = (Fulfilled (err token_expired), w1) /\
    validateToken p k w1 = (Fulfilled (err token_not_found), w1).
Proof.
  intros Hplan Hids Honly Hexp.
  assert (In t (tokens w) /\ byPinKind p k t = true) as [Hin Hm].
  { apply List.filter_In. rewrite Honly. now left. }
  assert (List.find (byPinKind p k) (tokens w) = Some t) as Hfind.
  { destruct (List.find (byPinKind p k) (tokens w)) as [t0|] eqn:Hfind.
    - apply List.find_some in Hfind.
      apply List.filter_In in Hfind. rewrite Honly in Hfind.
      destruct Hfind as [->|[]]. reflexivity.
    - apply (List.find_none _ _ Hfind) in Hin. congruence. }
  exists (setTokens (removeById (_id t) (tokens w)) w).
  rewrite !validateToken_reliable by assumption.
  rewrite Hfind, Hexp. split; [reflexivity|].
  simpl.
  assert (List.find (byPinKind p k) (removeById (_id t) (tokens w)) = None)
    as ->; [|reflexivity].
  apply find_none_iff. intros t' Ht'.
  apply (removeById_spec _ _ _ Hids Hin) in Ht' as [Hin' Hne].
  destruct (byPinKind p k t') eqn:Hm'; [|reflexivity].
  exfalso. apply Hne.
  assert (In t' (List.filter (byPinKind p k) (tokens w))) as Hf
      by (apply List.filter_In; auto).
  rewrite Honly in Hf. destruct Hf as [->|[]]. reflexivity.
Qed.

(** ** [getTokenUser] under any fault plan *)

Lemma strictNeqString_false (x : jsval) (s : string) :
  strictNeqString x s = false <-> x = VString s.
Proof.
  destruct x; simpl; try (split; intros H; discriminate H).
  rewrite negb_false_iff, String.eqb_eq. split; congruence.
Qed.

Lemma prop_string (o : RawUser) (k s : string) :
  prop o k = VString s <-> o !! k = Some (VString s).
Proof.
  unfold prop. destruct (o !! k) as [x|]; simpl; split; intros H;
    try congruence; discriminate.
Qed.

Lemma getTokenUser_cases (s : string) (w : World) :
  (exists e w', getTokenUser s w = (Rejected e, w') /\ sameData w' w) \/
  (exists w', getTokenUser s w
              = (Fulfilled (err (user_not_found (parseIdentifier s))), w') /\
              sameData w' w /\ faults w' = tl (faults w) /\
              List.find (userMatches (field (parseIdentifier s))
                                     (value (parseIdentifier s))) (users w)
              = None) \/
  (exists rawUser w',
      getTokenUser s w
      = (Fulfilled (err (identifier_value_mismatch (parseIdentifier s))), w') /\
      sameData w' w /\ faults w' = tl (faults w) /\
      In rawUser (users w) /\
      rawUser !! field (parseIdentifier s)
      <> Some (VString (value (parseIdentifier s)))) \/
  (exists rawUser w',
      getTokenUser s w
      = (Fulfilled (ok (parseIdentifier s, toLuciaUser rawUser)), w') /\
      sameData w' w /\ faults w' = tl (faults w) /\
      In rawUser (users w) /\
      rawUser !! field (parseIdentifier s)
      = Some (VString (value (parseIdentifier s)))).
Proof.
  unfold getTokenUser, await.
  destruct (userFindOne_cases (field (parseIdentifier s))
                              (value (parseIdentifier s)) w)
    as [(e & fs & Hplan & ->)|(w0 & Hsame & Hplan & ->)].
  { left. exists e, (setFaults fs w). unfold sameData. simpl. auto. }
  destruct (List.find _ (users w)) as [rawUser|] eqn:Hfind.
  2:{ right. left. exists w0. auto. }
  apply List.find_some in Hfind as [Hin _].
  destruct (strictNeqString _ _) eqn:Hneq.
  - right. right. left. exists rawUser, w0. repeat split; try assumption;
      try apply Hsame.
    intros Heq. apply prop_string, strictNeqString_false in Heq. congruence.
  - right. right. right. exists rawUser, w0.
    apply strictNeqString_false, prop_string in Hneq.
    repeat split; try assumption; apply Hsame.
Qed.

Lemma getTokenUser_untouched (s : string) (w : World) :
  sameData (snd (getTokenUser s w)) w.
Proof.
  destruct (getTokenUser_cases s w)
    as [(e & w1 & H & Hsame)|[(w1 & H & Hsame & _)|
        [(r & w1 & H & Hsame & _)|(r & w1 & H & Hsame & _)]]];
    rewrite H; exact Hsame.
Qed.

(** Whatever the User model matches, [getTokenUser] answers [ok] only with a
    stored user whose value at the parsed field is the parsed value, handed
    back in the shape of [toLuciaUser] together with the parsed identifier. *)
Theorem getTokenUser_sound
    (s : string) (w w' : World) (i : Identifier) (user : RawUser) :
  getTokenUser s w = (Fulfilled (ok (i, user)), w') ->
  i = parseIdentifier s /\
  exists rawUser,
    In rawUser (users w) /\
    rawUser !! field i = Some (VString (value i)) /\
    user = toLuciaUser rawUser.
Proof.
  intros Hcall.
  destruct (getTokenUser_cases s w)
    as [(e & w1 & H & _)|[(w1 & H & _)|[(r & w1 & H & _)|
        (r & w1 & H & _ & _ & Hin & Hval)]]];
    rewrite H in Hcall; inversion Hcall; subst.
  split; [reflexivity|]. exists r. auto.
Qed.

(** With a User model that applies the filter as written and a store that
    answers, [getTokenUser] succeeds when some user has the value at the
    field, answers [user_not_found] when none has, and never answers
    [identifier_value_mismatch]. *)
Theorem getTokenUser_exact_model (s : string) (w : World) :
  (forall f v u, userMatches f v u = true <-> u !! f = Some (VString v)) ->
  faults w = [] ->
  ((exists u, In u (users w) /\
              u !! field (parseIdentifier s)
              = Some (VString (value (parseIdentifier s)))) ->
   exists user,
     getTokenUser s w = (Fulfilled (ok (parseIdentifier s, user)), w)) /\
  ((forall u, In u (users w) ->
              u !! field (parseIdentifier s)
              <> Some (VString (value (parseIdentifier s)))) ->
   getTokenUser s w
   = (Fulfilled (err (user_not_found (parseIdentifier s))), w)) /\
  (forall i, fst (getTokenUser s w)
             <> Fulfilled (err (identifier_value_mismatch i))).
Proof.
  intros Hexact Hplan.
  unfold getTokenUser, await.
  rewrite (userFindOne_reliable _ _ _ Hplan).
  destruct (List.find _ (users w)) as [rawUser|] eqn:Hfind.
  - apply List.find_some in Hfind as [Hin Hm]. apply Hexact in Hm.
    assert (strictNeqString (prop rawUser (field (parseIdentifier s)))
                            (value (parseIdentifier s)) = false) as ->
        by now apply strictNeqString_false, prop_string.
    split; [eauto|]. split; [|simpl; congruence].
    intros Hnone. now apply Hnone in Hm.
  - split; [|split; [reflexivity|simpl; congruence]].
    intros (u & Hin & Hval). apply Hexact in Hval.
    apply (List.find_none _ _ Hfind) in Hin. congruence.
Qed.

(** ** [validateUserToken] under any fault plan *)

(** [validateUserToken] answers [ok] only with a stored token that has the
    pin and the kind and is not expired, and with a stored user whose value
    at the field of the token's identifier is the value of that identifier;
    it has then changed neither collection. *)
Theorem validateUserToken_sound
    (p k : string) (w w' : World) (user : RawUser) (t : Token) :
  validateUserToken p k w = (Fulfilled (ok (user, t)), w') ->
  In t (tokens w) /\ pin t = p /\ kind t = k /\
  isExpiredToken t w = false /\
  (exists rawUser,
      In rawUser (users w) /\
      rawUser !! field (parseIdentifier (identifier t))
      = Some (VString (value (parseIdentifier (identifier t)))) /\
      user = toLuciaUser rawUser) /\
  tokens w' = tokens w /\ users w' = users w.
Proof.
  unfold validateUserToken, await. intros Hcall.
  destruct (validateToken p k w) as [[[t0|e0]|e0] w1] eqn:Hv;
    try discriminate.
  destruct (validateToken_ok_inv _ _ _ _ _ Hv)
    as (Hfind & Hlive & Ht & Hu & _).
  apply List.find_some in Hfind as [Hin Hm].
  apply byPinKind_true in Hm as [Hp Hk].
  destruct (getTokenUser_cases (identifier t0) w1)
    as [(e & w2 & H & _)|[(w2 & H & _)|[(r & w2 & H & _)|
        (r & w2 & H & (Ht2 & Hu2 & _) & _ & Hrin & Hval)]]];
    rewrite H in Hcall.
  - discriminate.
  - destruct (deleteOne t0 w2) as [[[]|?] ?]; discriminate.
  - destruct (deleteOne t0 w2) as [[[]|?] ?]; discriminate.
  - inversion Hcall; subst.
    repeat split; try assumption; try congruence.
    exists r. rewrite <- Hu. auto.
Qed.

(** [validateUserToken] never adds a token and never touches the users,
    whatever the outcome and the fault plan. *)
Theorem validateUserToken_frame (p k : string) (w : World) :
  users (snd (validateUserToken p k w)) = users w /\
  (forall t, In t (tokens (snd (validateUserToken p k w))) -> In t (tokens w)).
Proof.
  unfold validateUserToken, await.
  destruct (validateToken_untouched p k w) as (Hu & Hsub).
  destruct (validateToken p k w) as [[[t0|e0]|e0] w1]; simpl in *; auto.
  destruct (getTokenUser_untouched (identifier t0) w1) as (Ht2 & Hu2 & _).
  destruct (getTokenUser (identifier t0) w1) as [[[[i user]|e]|e] w2];
    simpl in *; rewrite ?Hu2, ?Ht2; auto.
  destruct (deleteOne_cases t0 w2)
    as [(e' & fs & Hplan & ->)|(w3 & -> & Ht3 & Hu3 & _)]; simpl.
  - rewrite Hu2, Ht2. auto.
  - rewrite Hu3, Hu2, Ht3, Ht2. split; [exact Hu|].
    intros t Hin. apply Hsub. now apply removeById_In in Hin.
Qed.

(** When the user check fails and the deletion of the token is refused,
    [validateUserToken] is rejected with the storage error, the error of the
    user check is lost, and the token stays in the store. *)
Theorem validateUserToken_delete_refused
    (p k : string) (w w1 w2 w3 : World) (t : Token)
    (userError : TokenError) (e : Exn) :
  validateToken p k w = (Fulfilled (ok t), w1) ->
  getTokenUser (identifier t) w1 = (Fulfilled (err userError), w2) ->
  deleteOne t w2 = (Rejected e, w3) ->
  validateUserToken p k w = (Rejected e, w3) /\ In t (tokens w3).
Proof.
  intros Hv Hg Hd. split.
  - unfold validateUserToken, await. now rewrite Hv, Hg, Hd.
  - destruct (validateToken_ok_inv _ _ _ _ _ Hv) as (Hfind & _ & Ht & _).
    apply List.find_some in Hfind as [Hin _].
    pose proof (getTokenUser_untouched (identifier t) w1) as [Ht2 _].
    rewrite Hg in Ht2. simpl in Ht2.
    destruct (deleteOne_cases t w2)
      as [(e' & fs & Hplan & H)|(w' & H & _)]; rewrite H in Hd;
      inversion Hd; subst.
    simpl. congruence.
Qed.

(** A token whose user check fails is used up: with a store that answers,
    when it was the only token of its pin and kind, the call that reports the
    user error deletes it and the next call answers [token_not_found]. *)
Theorem validateUserToken_orphan_consumed
    (p k : string) (w : World) (t : Token) (userError : TokenError) :
  faults w = [] -> uniqueIds w ->
  List.filter (byPinKind p k) (tokens w) = [t] ->
  isExpiredToken t w = false ->
  getTokenUser (identifier t) w = (Fulfilled (err userError), w) ->
  exists w1,
    validateUserToken p k w = (Fulfilled (err userError), w1) /\
    validateUserToken p k w1 = (Fulfilled (err token_not_found), w1).
Proof.
  intros Hplan Hids Honly Hlive Hg.
  assert (In t (tokens w) /\ byPinKind p k t = true) as [Hin Hm].
  { apply List.filter_In. rewrite Honly. now left. }
  assert (List.find (byPinKind p k) (tokens w) = Some t) as Hfind.
  { destruct (List.find (byPinKind p k) (tokens w)) as [t0|] eqn:Hfind.
    - apply List.find_some in Hfind.
      apply List.filter_In in Hfind. rewrite Honly in Hfind.
      destruct Hfind as [->|[]]. reflexivity.
    - apply (List.find_none _ _ Hfind) in Hin. congruence. }
  exists (setTokens (removeById (_id t) (tokens w)) w).
  unfold validateUserToken, await.
  rewrite !validateToken_reliable by assumption.
  rewrite Hfind, Hlive, Hg, (deleteOne_reliable _ _ Hplan).
  split; [reflexivity|]. simpl.
  assert (List.find (byPinKind p k) (removeById (_id t) (tokens w)) = None)
    as ->; [|reflexivity].
  apply find_none_iff. intros t' Ht'.
  apply (removeById_spec _ _ _ Hids Hin) in Ht' as [Hin' Hne].
  destruct (byPinKind p k t') eqn:Hm'; [|reflexivity].
  exfalso. apply Hne.
  assert (In t' (List.filter (byPinKind p k) (tokens w))) as Hf
      by (apply List.filter_In; auto).
  rewrite Honly in Hf. destruct Hf as [->|[]]. reflexivity.
Qed.

(** ** [getOrCreate] *)

Lemma removeById_app (x : Token) (ts more : list Token) :
  In x ts ->
  removeById (_id x) (ts ++ more)%list = (removeById (_id x) ts ++ more)%list.
Proof.
  induction ts as [|a ts IH]; simpl; [tauto|].
  intros [->|Hin].
  - now rewrite Nat.eqb_refl.
  - destruct (Nat.eqb (_id a) (_id x)); [reflexivity|].
    simpl. now rewrite IH.
Qed.

Lemma find_filter_nil {A : Type} (f : A -> bool) (l : list A) :
  List.find f l = None -> List.filter f l = [].
Proof.
  induction l as [|a l IH]; simpl; [reflexivity|].
  destruct (f a); [discriminate|exact IH].
Qed.

Lemma filter_nil_of_none {A : Type} (f : A -> bool) (l : list A) :
  (forall x, In x l -> f x = true -> False) -> List.filter f l = [].
Proof.
  intros H. destruct (List.filter f l) as [|x xs] eqn:Hfl; [reflexivity|].
  assert (In x (List.filter f l)) as Hin by (rewrite Hfl; now left).
  apply List.filter_In in Hin as [Hin Hx]. destruct (H x Hin Hx).
Qed.

Lemma filter_removeById_length (f : Token -> bool) (i : nat) (ts : list Token) :
  (length (List.filter f (removeById i ts)) <= length (List.filter f ts))%nat.
Proof.
  induction ts as [|a ts IH]; simpl; [lia|].
  destruct (Nat.eqb (_id a) i).
  - destruct (f a); simpl; lia.
  - simpl. destruct (f a); simpl; lia.
Qed.

Lemma getOrCreate_cases (input : TokenInput) (w : World) :
  (exists e fs, faults w = Some e :: fs /\
                getOrCreate input w = (Rejected e, setFaults fs w)) \/
  (exists w0, sameData w0 w /\ faults w0 = tl (faults w) /\
              List.find (sameKey input) (tokens w) = None /\
              getOrCreate input w = tokenCreate input w0) \/
  (exists t w0, sameData w0 w /\ faults w0 = tl (faults w) /\
                List.find (sameKey input) (tokens w) = Some t /\
                isExpiredToken t w = false /\
                getOrCreate input w = (Fulfilled t, w0)) \/
  (exists t w0, sameData w0 w /\ faults w0 = tl (faults w) /\
                List.find (sameKey input) (tokens w) = Some t /\
                isExpiredToken t w = true /\
                getOrCreate input w
                = (let '(created, w1) := tokenCreate input w0 in
                   let '(removed, w2) := deleteOne t w1 in
                   match created, removed with
                   | Fulfilled newToken, Fulfilled _ => (Fulfilled newToken, w2)
                   | Rejected e, _ => (Rejected e, w2)
                   | Fulfilled _, Rejected e => (Rejected e, w2)
                   end)).
Proof.
  unfold getOrCreate, await. fold (sameKey input).
  destruct (tokenFindOne_cases (sameKey input) w)
    as [(e & fs & Hplan & ->)|(w0 & Hsame & Hplan & ->)].
  { left. eauto. }
  right. destruct (List.find (sameKey input) (tokens w)) as [t|] eqn:Hfind.
  2:{ left. exists w0. auto. }
  right. unfold sync. rewrite (isExpiredToken_sameData t w0 w Hsame).
  destruct (isExpiredToken t w) eqn:Hexp.
  - right. exists t, w0. repeat split; try assumption; try apply Hsame.
    unfold promiseAll2, create.
    destruct (tokenCreate input w0) as [[newToken|e] w1];
      destruct (deleteOne t w1) as [[[]|e'] w2]; reflexivity.
  - left. exists t, w0. repeat split; try assumption; apply Hsame.
Qed.

(** What a fulfilled [getOrCreate] hands back, under any fault plan. *)
Lemma getOrCreate_fulfilled (input : TokenInput) (w w' : World) (t : Token) :
  getOrCreate input w = (Fulfilled t, w') ->
  identifier t = in_identifier input /\ kind t = in_kind input /\
  In t (tokens w') /\ users w' = users w /\
  (faults w = [] -> faults w' = []).
Proof.
  intros Hcall.
  destruct (getOrCreate_cases input w)
    as [(e & fs & _ & H)|[(w0 & Hsame & Hplan & Hfind & H)|
        [(t0 & w0 & Hsame & Hplan & Hfind & Hlive & H)|
         (t0 & w0 & Hsame & Hplan & Hfind & Hexp & H)]]];
    rewrite H in Hcall; clear H.
  - discriminate.
  - destruct Hsame as (Ht & Hu & Hc & Hn).
    destruct (tokenCreate_cases input w0)
      as [(e & fs & _ & H)|(t1 & w1 & H & Ht1 & _ & Hk & Hi & _ & Hx & Hca &
                            Hu1 & Hc1 & _ & Hf1)];
      rewrite H in Hcall; inversion Hcall; subst.
    repeat split; try congruence.
    + rewrite Ht1. apply in_or_app. right. now left.
    + intros Hnil. rewrite Hf1, Hplan, Hnil. reflexivity.
  - inversion Hcall; subst. destruct Hsame as (Ht & Hu & Hc & Hn).
    apply List.find_some in Hfind as [Hin Hm].
    apply byIdentifierKind_true in Hm as [Hi Hk].
    repeat split; try congruence.
    + intros Hnil. rewrite Hplan, Hnil. reflexivity.
  - destruct Hsame as (Ht & Hu & Hc & Hn).
    apply List.find_some in Hfind as [Hin _].
    destruct (tokenCreate_cases input w0)
      as [(e & fs & _ & H)|(t1 & w1 & H & Ht1 & _ & Hk & Hi & _ & Hx & Hca &
                            Hu1 & Hc1 & _ & Hf1)];
      rewrite H in Hcall.
    { destruct (deleteOne t0 (setFaults fs w0)) as [[[]|?] ?]; discriminate. }
    destruct (deleteOne_cases t0 w1)
      as [(e & fs & _ & H')|(w2 & H' & Ht2 & Hu2 & Hc2 & _ & Hf2)];
      rewrite H' in Hcall; inversion Hcall; subst.
    repeat split; try congruence.
    + rewrite Ht2, Ht1, removeById_app by congruence.
      apply in_or_app. right. now left.
    + intros Hnil. rewrite Hf2, Hf1, Hplan, Hnil. reflexivity.
Qed.

(** A fulfilled [getOrCreate] hands back a token of the identifier and kind
    asked for, and that token is in the store when the call returns; the
    users are untouched.  This holds under every fault plan. *)
Theorem getOrCreate_returns_stored
    (input : TokenInput) (w w' : World) (t : Token) :
  getOrCreate input w = (Fulfilled t, w') ->
  identifier t = in_identifier input /\ kind t = in_kind input /\
  In t (tokens w') /\ users w' = users w.
Proof.
  intros Hcall.
  destruct (getOrCreate_fulfilled input w w' t Hcall) as (? & ? & ? & ? & _).
  auto.
Qed.

(** Under every fault plan a fulfilled [getOrCreate] hands back one of two
    tokens: the first stored token of the key, which the expiry test of the
    call found not expired, the token collection then being as it was; or a
    token it created from the input, put after tokens that were all stored
    before, there being no token of the key or the first one having tested
    expired.  A token that tested expired is never the answer of the first
    kind. *)
Theorem getOrCreate_found_live_or_created
    (input : TokenInput) (w w' : World) (t : Token) :
  getOrCreate input w = (Fulfilled t, w') ->
  (List.find (sameKey input) (tokens w) = Some t /\
   isExpiredToken t w = false /\ tokens w' = tokens w) \/
  (exists rest,
      tokens w' = (rest ++ [t])%list /\
      (forall x, In x rest -> In x (tokens w)) /\
      data t = in_data input /\ expiresInMs t = in_expiresInMs input /\
      (List.find (sameKey input) (tokens w) = None \/
       exists existing,
         List.find (sameKey input) (tokens w) = Some existing /\
         isExpiredToken existing w = true)).
Proof.
  intros Hcall.
  destruct (getOrCreate_cases input w)
    as [(e & fs & _ & H)|[(w0 & (Ht & _) & _ & Hfind & H)|
        [(t0 & w0 & (Ht & _) & _ & Hfind & Hlive & H)|
         (t0 & w0 & (Ht & _) & _ & Hfind & Hexp & H)]]];
    rewrite H in Hcall; clear H.
  - discriminate.
  - right.
    destruct (tokenCreate_cases input w0)
      as [(e & fs & _ & H)|(t1 & w1 & H & Ht1 & _ & _ & _ & Hd & Hx & _)];
      rewrite H in Hcall; inversion Hcall; subst.
    exists (tokens w). rewrite Ht1, Ht. auto 6.
  - left. inversion Hcall; subst. auto.
  - right. apply List.find_some in Hfind as Hin. destruct Hin as [Hin _].
    destruct (tokenCreate_cases input w0)
      as [(e & fs & _ & H)|(t1 & w1 & H & Ht1 & _ & _ & _ & Hd & Hx & _)];
      rewrite H in Hcall.
    { destruct (deleteOne t0 (setFaults fs w0)) as [[[]|?] ?]; discriminate. }
    destruct (deleteOne_cases t0 w1)
      as [(e & fs & _ & H')|(w2 & H' & Ht2 & _)];
      rewrite H' in Hcall; inversion Hcall; subst.
    exists (removeById (_id t0) (tokens w)).
    rewrite Ht2, Ht1, removeById_app, Ht by congruence.
    repeat split; try assumption.
    + apply removeById_In.
    + right. eauto.
Qed.

(** With a store that answers and no token of the key, [getOrCreate] adds
    one token at the end of the collection and returns it: the fields are
    those asked for and it is the one token of its key. *)
Theorem getOrCreate_creates (input : TokenInput) (w : World) :
  faults w = [] ->
  (forall t, In t (tokens w) ->
             ~ (identifier t = in_identifier input /\ kind t = in_kind input)) ->
  exists t w',
    getOrCreate input w = (Fulfilled t, w') /\
    tokens w' = (tokens w ++ [t])%list /\ users w' = users w /\
    kind t = in_kind input /\ identifier t = in_identifier input /\
    data t = in_data input /\ expiresInMs t = in_expiresInMs input /\
    List.filter (sameKey input) (tokens w') = [t].
Proof.
  intros Hplan Hnone.
  assert (List.find (sameKey input) (tokens w) = None) as Hfind.
  { apply find_none_iff. intros t Hin.
    destruct (sameKey input t) eqn:Hm; [|reflexivity].
    apply byIdentifierKind_true in Hm. destruct (Hnone t Hin Hm). }
  destruct (getOrCreate_cases input w)
    as [(e & fs & Hp & _)|[(w0 & (Ht & Hu & _) & Hp0 & _ & H)|
        [(t0 & w0 & _ & _ & Hsome & _)|(t0 & w0 & _ & _ & Hsome & _)]]];
    try congruence.
  rewrite Hplan in Hp0. simpl in Hp0.
  destruct (tokenCreate_cases input w0)
    as [(e & fs & Hp & _)|(t1 & w1 & H1 & Ht1 & _ & Hk & Hi & Hd & Hx & _ &
                           Hu1 & _)]; [congruence|].
  exists t1, w1. rewrite H, H1, Ht1, Ht, Hu1, Hu.
  repeat split; try assumption.
  rewrite List.filter_app, (find_filter_nil _ _ Hfind). simpl.
  assert (sameKey input t1 = true) as ->
      by (apply byIdentifierKind_true; auto).
  reflexivity.
Qed.

Lemma find_the_only {A : Type} (f : A -> bool) (l : list A) (x : A) :
  In x l -> f x = true ->
  (forall y, In y l -> f y = true -> y = x) ->
  List.find f l = Some x.
Proof.
  intros Hin Hx Honly.
  destruct (List.find f l) as [y|] eqn:Hfind.
  - apply List.find_some in Hfind as [Hy Hfy]. now rewrite (Honly y Hy Hfy).
  - apply (List.find_none _ _ Hfind) in Hin. congruence.
Qed.

(** The three ways a call of [getOrCreate] goes when the store answers. *)
Lemma getOrCreate_reliable (input : TokenInput) (w : World) :
  faults w = [] ->
  (exists t w', getOrCreate input w = (Fulfilled t, w') /\
                List.find (sameKey input) (tokens w) = None /\
                tokens w' = (tokens w ++ [t])%list /\
                sameKey input t = true /\ users w' = users w) \/
  (exists t, getOrCreate input w = (Fulfilled t, w) /\
             List.find (sameKey input) (tokens w) = Some t /\
             isExpiredToken t w = false) \/
  (exists existing t w',
      getOrCreate input w = (Fulfilled t, w') /\
      List.find (sameKey input) (tokens w) = Some existing /\
      isExpiredToken existing w = true /\
      tokens w' = (removeById (_id existing) (tokens w) ++ [t])%list /\
      sameKey input t = true /\ users w' = users w).
Proof.
  intros Hplan.
  destruct (getOrCreate_cases input w)
    as [(e & fs & Hp & _)|[(w0 & (Ht & Hu & _) & Hp0 & Hfind & H)|
        [(t0 & w0 & _ & _ & Hfind & Hlive & _)|
         (t0 & w0 & (Ht & Hu & _) & Hp0 & Hfind & Hexp & H)]]].
  - congruence.
  - left. rewrite Hplan in Hp0. simpl in Hp0.
    destruct (tokenCreate_cases input w0)
      as [(e & fs & Hp & _)|(t1 & w1 & H1 & Ht1 & _ & Hk & Hi & _ & _ & _ &
                             Hu1 & _)]; [congruence|].
    exists t1, w1. rewrite H, H1, Ht1, Ht, Hu1, Hu.
    repeat split; try assumption. apply byIdentifierKind_true. auto.
  - right. left. exists t0.
    split; [apply getOrCreate_live; assumption|auto].
  - right. right. rewrite Hplan in Hp0. simpl in Hp0.
    apply List.find_some in Hfind as Hin. destruct Hin as [Hin _].
    destruct (tokenCreate_cases input w0)
      as [(e & fs & Hp & _)|(t1 & w1 & H1 & Ht1 & _ & Hk & Hi & _ & _ & _ &
                             Hu1 & _ & _ & Hf1)]; [congruence|].
    rewrite Hp0 in Hf1. simpl in Hf1.
    destruct (deleteOne_cases t0 w1)
      as [(e & fs & Hp & _)|(w2 & H2 & Ht2 & Hu2 & _)]; [congruence|].
    exists t0, t1, w2. rewrite H, H1, H2.
    repeat split; try assumption; try congruence.
    + rewrite Ht2, Ht1, removeById_app by congruence. now rewrite Ht.
    + apply byIdentifierKind_true. auto.
Qed.

(** With a store that answers and distinct identities, replacing an expired
    token leaves the store with every token it had except the expired one,
    and with the new token, which is the one returned. *)
Theorem getOrCreate_replaces
    (input : TokenInput) (w : World) (existing : Token) :
  faults w = [] -> uniqueIds w ->
  List.find (sameKey input) (tokens w) = Some existing ->
  isExpiredToken existing w = true ->
  exists t w',
    getOrCreate input w = (Fulfilled t, w') /\
    identifier t = in_identifier input /\ kind t = in_kind input /\
    (forall t', In t' (tokens w') <->
                (In t' (tokens w) /\ t' <> existing) \/ t' = t) /\
    users w' = users w.
Proof.
  intros Hplan Hids Hfind Hexp.
  destruct (getOrCreate_reliable input w Hplan)
    as [(t & w' & _ & Hnone & _)|[(t & _ & Hsome & Hlive)|
        (ex & t & w' & H & Hsome & _ & Ht & Hkey & Hu)]]; try congruence.
  assert (ex = existing) as -> by congruence.
  exists t, w'. apply byIdentifierKind_true in Hkey as [Hi Hk].
  repeat split; try assumption.
  - rewrite Ht. intros Hin. apply in_app_or in Hin as [Hin|[->|[]]]; auto.
    left. apply List.find_some in Hfind as [Hex _].
    now apply (removeById_spec _ _ _ Hids Hex).
  - rewrite Ht. intros [Hin| ->]; apply in_or_app; [left|right; now left].
    apply List.find_some in Hfind as [Hex _].
    now apply (removeById_spec _ _ _ Hids Hex).
Qed.

(** With a store that answers and distinct identities, [getOrCreate] keeps
    the store at no more than one token per identifier and kind, and leaves
    exactly one token for the key it was called with. *)
Theorem getOrCreate_one_per_key (input : TokenInput) (w : World) :
  faults w = [] -> uniqueIds w ->
  atMostOnePerKey (tokens w) ->
  atMostOnePerKey (tokens (snd (getOrCreate input w))) /\
  length (List.filter (sameKey input) (tokens (snd (getOrCreate input w))))
  = 1%nat.
Proof.
  intros Hplan Hids Hone.
  assert (forall i k t, sameKey input t = true ->
                        byIdentifierKind i k t = true ->
                        byIdentifierKind i k = sameKey input) as Hsamekey.
  { intros i k t Hs Hb. apply byIdentifierKind_true in Hs as [Hi Hk].
    apply byIdentifierKind_true in Hb as [Hi' Hk'].
    unfold sameKey. congruence. }
  destruct (getOrCreate_reliable input w Hplan)
    as [(t & w' & H & Hnone & Ht & Hkey & _)|[(t & H & Hsome & Hlive)|
        (ex & t & w' & H & Hsome & _ & Ht & Hkey & _)]];
    rewrite H; simpl.
  - assert (length (List.filter (sameKey input) (tokens w')) = 1%nat) as Hmine.
    { rewrite Ht, List.filter_app, (find_filter_nil _ _ Hnone). simpl.
      now rewrite Hkey. }
    split; [|exact Hmine]. intros i k.
    destruct (byIdentifierKind i k t) eqn:Hb.
    + rewrite (Hsamekey i k t Hkey Hb), Hmine. lia.
    + rewrite Ht, List.filter_app. simpl. rewrite Hb.
      rewrite length_app. simpl. specialize (Hone i k). lia.
  - split; [exact Hone|].
    apply List.find_some in Hsome as [Hin Hm].
    assert (In t (List.filter (sameKey input) (tokens w))) as Hf
        by (apply List.filter_In; auto).
    specialize (Hone (in_identifier input) (in_kind input)).
    fold (sameKey input) in Hone.
    destruct (List.filter (sameKey input) (tokens w)) as [|a [|b l]];
      simpl in *; [contradiction|reflexivity|lia].
  - apply List.find_some in Hsome as [Hin Hm].
    assert (List.filter (sameKey input) (tokens w) = [ex]) as Honly.
    { assert (In ex (List.filter (sameKey input) (tokens w))) as Hf
          by (apply List.filter_In; auto).
      specialize (Hone (in_identifier input) (in_kind input)).
      fold (sameKey input) in Hone.
      destruct (List.filter (sameKey input) (tokens w)) as [|a [|b l]];
        simpl in *; [contradiction| |lia].
      destruct Hf as [->|[]]. reflexivity. }
    assert (List.filter (sameKey input) (removeById (_id ex) (tokens w)) = [])
      as Hgone.
    { apply filter_nil_of_none. intros x Hx Hfx.
      apply (removeById_spec _ _ _ Hids Hin) in Hx as [Hx Hne].
      assert (In x (List.filter (sameKey input) (tokens w))) as Hf
          by (apply List.filter_In; auto).
      rewrite Honly in Hf. destruct Hf as [->|[]]. now apply Hne. }
    assert (length (List.filter (sameKey input) (tokens w')) = 1%nat) as Hmine.
    { rewrite Ht, List.filter_app, Hgone. simpl. now rewrite Hkey. }
    split; [|exact Hmine]. intros i k.
    destruct (byIdentifierKind i k t) eqn:Hb.
    + rewrite (Hsamekey i k t Hkey Hb), Hmine. lia.
    + rewrite Ht, List.filter_app. simpl. rewrite Hb.
      rewrite length_app. simpl.
      pose proof (filter_removeById_length (byIdentifierKind i k) (_id ex)
                                           (tokens w)).
      specialize (Hone i k). lia.
Qed.

(** In the branch that replaces an expired token, when the creation is
    refused and the deletion succeeds, the call is rejected with the error of
    the creation, and once both have settled the expired token is gone and
    nothing has replaced it. *)
Theorem getOrCreate_create_refused
    (input : TokenInput) (w w1 w2 w3 : World) (existing : Token) (e : Exn) :
  uniqueIds w ->
  tokenFindOne (sameKey input) w = (Fulfilled (Some existing), w1) ->
  isExpiredToken existing w1 = true ->
  create input w1 = (Rejected e, w2) ->
  deleteOne existing w2 = (Fulfilled tt, w3) ->
  getOrCreate input w = (Rejected e, w3) /\
  (forall t', In t' (tokens w3) <-> In t' (tokens w) /\ t' <> existing).
Proof.
  intros Hids Hfind Hexp Hcreate Hdel. split.
  - unfold getOrCreate, await. fold (sameKey input).
    rewrite Hfind. unfold sync. rewrite Hexp.
    unfold promiseAll2. now rewrite Hcreate, Hdel.
  - destruct (tokenFindOne_cases (sameKey input) w)
      as [(e' & fs & _ & H)|(w0 & (Ht & _) & _ & H)];
      rewrite H in Hfind; inversion Hfind as [[Hsome Hw]]; subst w0.
    apply List.find_some in Hsome as [Hin _].
    unfold create in Hcreate.
    destruct (tokenCreate_cases input w1)
      as [(e' & fs & _ & H1)|(t1 & w' & H1 & _)];
      rewrite H1 in Hcreate; inversion Hcreate; subst.
    destruct (deleteOne_cases existing (setFaults fs w1))
      as [(e' & fs' & _ & H2)|(w' & H2 & Ht2 & _)];
      rewrite H2 in Hdel; inversion Hdel; subst.
    intros t'. rewrite Ht2. simpl. rewrite Ht.
    now apply removeById_spec.
Qed.

(** A token handed back by [getOrCreate] is redeemed by [validateToken] with
    its pin and kind, as long as it is not expired and no other stored token
    has that pin and kind; the store answers throughout. *)
Theorem getOrCreate_then_validateToken
    (input : TokenInput) (w w1 : World) (t : Token) :
  faults w = [] ->
  getOrCreate input w = (Fulfilled t, w1) ->
  isExpiredToken t w1 = false ->
  (forall t', In t' (tokens w1) -> pin t' = pin t -> kind t' = kind t ->
              t' = t) ->
  validateToken (pin t) (kind t) w1 = (Fulfilled (ok t), w1).
Proof.
  intros Hplan Hcall Hlive Honly.
  destruct (getOrCreate_fulfilled input w w1 t Hcall)
    as (_ & _ & Hin & _ & Hplan1).
  rewrite (validateToken_reliable _ _ _ (Hplan1 Hplan)).
  rewrite (find_the_only (byPinKind (pin t) (kind t)) (tokens w1) t Hin).
  - now rewrite Hlive.
  - now apply byPinKind_true.
  - intros y Hy Hm. apply byPinKind_true in Hm as [Hp Hk]. auto.
Qed.

(** A storage failure at the first operation of a call rejects the call with
    that failure, for every method, and leaves both collections as they
    were. *)
Theorem first_fault_rejects
    (w : World) (e : Exn) (fs : list (option Exn))
    (input : TokenInput) (p k s : string) :
  faults w = Some e :: fs ->
  create input w = (Rejected e, setFaults fs w) /\
  getOrCreate input w = (Rejected e, setFaults fs w) /\
  validateToken p k w = (Rejected e, setFaults fs w) /\
  getTokenUser s w = (Rejected e, setFaults fs w) /\
  validateUserToken p k w = (Rejected e, setFaults fs w) /\
  tokens (setFaults fs w) = tokens w /\ users (setFaults fs w) = users w.
Proof.
  intros Hplan.
  unfold create, getOrCreate, validateUserToken, validateToken, getTokenUser,
    await, tokenCreate, tokenFindOne, userFindOne, io.
  rewrite Hplan. auto 10.
Qed.

End LifeCycle.

(** ** The life cycle at concrete calls *)

Lemma exactMatches_spec (f v : string) (u : RawUser) :
  exactMatches f v u = true <-> u !! f = Some (VString v).
Proof.
  unfold exactMatches. destruct (u !! f) as [[| | | |s|]|];
    try (split; intros H; discriminate H).
  rewrite String.eqb_eq. split; congruence.
Qed.

Lemma atMostOnePerKey_of_NoDup (ts : list Token) :
  List.NoDup (map keyOf ts) -> atMostOnePerKey ts.
Proof.
  intros Hnd i k.
  induction ts as [|a ts IH]; simpl; [lia|].
  inversion Hnd as [|x xs Hnotin Hnd']; subst.
  specialize (IH Hnd').
  destruct (byIdentifierKind i k a) eqn:Ha; [|exact IH].
  simpl.
  assert (List.filter (byIdentifierKind i k) ts = []) as ->; [|simpl; lia].
  apply filter_nil_of_none. intros t Hin Ht. apply Hnotin.
  apply byIdentifierKind_true in Ha as [Hi Hk].
  apply byIdentifierKind_true in Ht as [Hi' Hk'].
  apply in_map_iff. exists t. split; [|exact Hin].
  unfold keyOf. congruence.
Qed.

Lemma demoWorld_onePerKey (now : Z) (plan : list (option Exn)) :
  atMostOnePerKey (tokens (demoWorld now plan)).
Proof.
  apply atMostOnePerKey_of_NoDup. simpl.
  repeat (constructor; [simpl; intuition discriminate|]). constructor.
Qed.

(** A token expired at 1501 is expired at 9000. *)
Lemma isExpired_monotone_witness :
  isExpired 1000 (Some 500) (demoWorld 9000 []) = true.
Proof.
  apply (isExpired_monotone 1000 (Some 500) (demoWorld 1501 [])
                            (demoWorld 9000 [])).
  - simpl. lia.
  - reflexivity.
Defined.

(** At 500 the token of pin 111111 is handed back: it is stored, has the pin
    and the kind, and is not expired. *)
Lemma validateToken_sound_witness :
  In verifyAlice (tokens (demoWorld 500 [])) /\
  pin verifyAlice = "111111" /\ kind verifyAlice = "verify" /\
  isExpiredToken verifyAlice (demoWorld 500 []) = false /\
  tokens (demoWorld 500 []) = tokens (demoWorld 500 []) /\
  users (demoWorld 500 []) = users (demoWorld 500 []).
Proof.
  apply (validateToken_sound "111111" "verify" (demoWorld 500 [])
                             (demoWorld 500 []) verifyAlice).
  reflexivity.
Defined.

(** The deletion of the expired token of pin 111111 is refused. *)
Lemma validateToken_delete_refused_witness :
  validateToken "111111" "verify"
                (demoWorld 5000 [None; Some "delete refused"])
  = (Rejected "delete refused", demoWorld 5000 []) /\
  In verifyAlice (tokens (demoWorld 5000 [])).
Proof.
  apply (validateToken_delete_refused "111111" "verify"
           (demoWorld 5000 [None; Some "delete refused"]) verifyAlice
           "delete refused" []); reflexivity.
Defined.

(** The expired token of pin 111111 is reported once and then unknown. *)
Lemma validateToken_expired_then_gone_witness :
  exists w1,
    validateToken "111111" "verify" (demoWorld 5000 [])
    = (Fulfilled (err token_expired), w1) /\
    validateToken "111111" "verify" w1
    = (Fulfilled (err token_not_found), w1).
Proof.
  apply (validateToken_expired_then_gone "111111" "verify"
           (demoWorld 5000 []) verifyAlice).
  - reflexivity.
  - apply demoWorld_uniqueIds.
  - reflexivity.
  - reflexivity.
Defined.

(** The user handed back for the token of Alice is the stored record of
    Alice. *)
Lemma getTokenUser_sound_witness :
  mkIdentifier "email" "a@example.com" = parseIdentifier "email:a@example.com" /\
  exists rawUser,
    In rawUser (users (demoWorld 0 [])) /\
    rawUser !! "email" = Some (VString "a@example.com") /\
    toLuciaUser alice = toLuciaUser rawUser.
Proof.
  apply (getTokenUser_sound (models := demoModels) "email:a@example.com"
           (demoWorld 0 []) (demoWorld 0 [])
           (mkIdentifier "email" "a@example.com") (toLuciaUser alice)).
  reflexivity.
Defined.

(** With the exact model the undeclared path [phone] finds nobody. *)
Lemma getTokenUser_exact_model_witness :
  getTokenUser (models := exactModels) "phone:555" (demoWorld 0 [])
  = (Fulfilled (err (user_not_found (mkIdentifier "phone" "555"))),
     demoWorld 0 []).
Proof.
  destruct (getTokenUser_exact_model (models := exactModels) "phone:555"
              (demoWorld 0 []) exactMatches_spec eq_refl)
    as (_ & Hnone & _).
  apply Hnone. simpl. intros u [<-|[<-|[]]]; vm_compute; discriminate.
Defined.

(** At 500 the pin 111111 gives Alice and her token. *)
Lemma validateUserToken_sound_witness :
  In verifyAlice (tokens (demoWorld 500 [])) /\
  pin verifyAlice = "111111" /\ kind verifyAlice = "verify" /\
  isExpiredToken verifyAlice (demoWorld 500 []) = false /\
  (exists rawUser,
      In rawUser (users (demoWorld 500 [])) /\
      rawUser !! field (parseIdentifier (identifier verifyAlice))
      = Some (VString (value (parseIdentifier (identifier verifyAlice)))) /\
      toLuciaUser alice = toLuciaUser rawUser) /\
  tokens (demoWorld 500 []) = tokens (demoWorld 500 []) /\
  users (demoWorld 500 []) = users (demoWorld 500 []).
Proof.
  apply (validateUserToken_sound (models := demoModels) "111111" "verify"
           (demoWorld 500 []) (demoWorld 500 []) (toLuciaUser alice)
           verifyAlice).
  reflexivity.
Defined.

(** The token of pin 222222 names nobody and its deletion is refused. *)
Lemma validateUserToken_delete_refused_witness :
  validateUserToken (models := demoModels) "222222" "reset"
                    (demoWorld 0 [None; None; Some "delete refused"])
  = (Rejected "delete refused", demoWorld 0 []) /\
  In resetNobody (tokens (demoWorld 0 [])).
Proof.
  apply (validateUserToken_delete_refused (models := demoModels)
           "222222" "reset"
           (demoWorld 0 [None; None; Some "delete refused"])
           (demoWorld 0 [None; Some "delete refused"])
           (demoWorld 0 [Some "delete refused"])
           (demoWorld 0 []) resetNobody
           (user_not_found (mkIdentifier "email" "nobody@example.com"))
           "delete refused"); reflexivity.
Defined.

(** The token of pin 222222 names nobody: it is used up by the first call. *)
Lemma validateUserToken_orphan_consumed_witness :
  exists w1,
    validateUserToken (models := demoModels) "222222" "reset" (demoWorld 0 [])
    = (Fulfilled
         (err (user_not_found (mkIdentifier "email" "nobody@example.com"))),
       w1) /\
    validateUserToken (models := demoModels) "222222" "reset" w1
    = (Fulfilled (err token_not_found), w1).
Proof.
  apply (validateUserToken_orphan_consumed (models := demoModels)
           "222222" "reset" (demoWorld 0 []) resetNobody).
  - reflexivity.
  - apply demoWorld_uniqueIds.
  - reflexivity.
  - reflexivity.
  - reflexivity.
Defined.

(** A first login token for Bob is created and stored. *)
Lemma getOrCreate_returns_stored_witness :
  identifier loginBobToken = in_identifier loginBobInput /\
  kind loginBobToken = in_kind loginBobInput /\
  In loginBobToken (tokens demoWorldWithLogin) /\
  users demoWorldWithLogin = users (demoWorld 0 []).
Proof.
  apply (getOrCreate_returns_stored (models := demoModels) loginBobInput
           (demoWorld 0 []) demoWorldWithLogin loginBobToken).
  reflexivity.
Defined.

(** At 500 the token of Alice is found live and handed back; Bob has no
    login token, so one is created and put after the three stored. *)
Lemma getOrCreate_found_live_or_created_witness :
  ((List.find (sameKey verifyAliceInput) (tokens (demoWorld 500 []))
    = Some verifyAlice /\
    isExpiredToken verifyAlice (demoWorld 500 []) = false /\
    tokens (demoWorld 500 []) = tokens (demoWorld 500 [])) \/
   (exists rest,
       tokens (demoWorld 500 []) = (rest ++ [verifyAlice])%list /\
       (forall x, In x rest -> In x (tokens (demoWorld 500 []))) /\
       data verifyAlice = in_data verifyAliceInput /\
       expiresInMs verifyAlice = in_expiresInMs verifyAliceInput /\
       (List.find (sameKey verifyAliceInput) (tokens (demoWorld 500 []))
        = None \/
        exists existing,
          List.find (sameKey verifyAliceInput) (tokens (demoWorld 500 []))
          = Some existing /\
          isExpiredToken existing (demoWorld 500 []) = true))) /\
  ((List.find (sameKey loginBobInput) (tokens (demoWorld 0 []))
    = Some loginBobToken /\
    isExpiredToken loginBobToken (demoWorld 0 []) = false /\
    tokens demoWorldWithLogin = tokens (demoWorld 0 [])) \/
   (exists rest,
       tokens demoWorldWithLogin = (rest ++ [loginBobToken])%list /\
       (forall x, In x rest -> In x (tokens (demoWorld 0 []))) /\
       data loginBobToken = in_data loginBobInput /\
       expiresInMs loginBobToken = in_expiresInMs loginBobInput /\
       (List.find (sameKey loginBobInput) (tokens (demoWorld 0 [])) = None \/
        exists existing,
          List.find (sameKey loginBobInput) (tokens (demoWorld 0 []))
          = Some existing /\
          isExpiredToken existing (demoWorld 0 []) = true))).
Proof.
  split.
  - apply (getOrCreate_found_live_or_created (models := demoModels)
             verifyAliceInput (demoWorld 500 []) (demoWorld 500 [])
             verifyAlice).
    reflexivity.
  - apply (getOrCreate_found_live_or_created (models := demoModels)
             loginBobInput (demoWorld 0 []) demoWorldWithLogin loginBobToken).
    reflexivity.
Defined.

(** Bob has no login token yet: one is created. *)
Lemma getOrCreate_creates_witness :
  exists t w',
    getOrCreate (models := demoModels) loginBobInput (demoWorld 0 [])
    = (Fulfilled t, w') /\
    tokens w' = (tokens (demoWorld 0 []) ++ [t])%list /\
    users w' = users (demoWorld 0 []) /\
    kind t = "login" /\ identifier t = "email:b@example.com" /\
    data t = None /\ expiresInMs t = Some 60000 /\
    List.filter (sameKey loginBobInput) (tokens w') = [t].
Proof.
  apply (getOrCreate_creates (models := demoModels) loginBobInput
           (demoWorld 0 [])).
  - reflexivity.
  - simpl. intros t [<-|[<-|[<-|[]]]] [Hi Hk]; discriminate.
Defined.

(** At 5000 the verification token of Alice is expired and replaced. *)
Lemma getOrCreate_replaces_witness :
  exists t w',
    getOrCreate (models := demoModels) verifyAliceInput (demoWorld 5000 [])
    = (Fulfilled t, w') /\
    identifier t = "email:a@example.com" /\ kind t = "verify" /\
    (forall t', In t' (tokens w') <->
                (In t' (tokens (demoWorld 5000 [])) /\ t' <> verifyAlice) \/
                t' = t) /\
    users w' = users (demoWorld 5000 []).
Proof.
  apply (getOrCreate_replaces (models := demoModels) verifyAliceInput
           (demoWorld 5000 []) verifyAlice).
  - reflexivity.
  - apply demoWorld_uniqueIds.
  - reflexivity.
  - reflexivity.
Defined.

(** The three tokens of the demonstration have three keys, and a call for
    the key of Alice leaves one token per key. *)
Lemma getOrCreate_one_per_key_witness :
  atMostOnePerKey
    (tokens (snd (getOrCreate (models := demoModels) verifyAliceInput
                              (demoWorld 5000 [])))) /\
  length (List.filter (sameKey verifyAliceInput)
            (tokens (snd (getOrCreate (models := demoModels) verifyAliceInput
                                      (demoWorld 5000 [])))))
  = 1%nat.
Proof.
  apply (getOrCreate_one_per_key (models := demoModels) verifyAliceInput
           (demoWorld 5000 [])).
  - reflexivity.
  - apply demoWorld_uniqueIds.
  - apply demoWorld_onePerKey.
Defined.

(** The creation is refused while the deletion goes through: the expired
    token of Alice is gone and nothing replaces it. *)
Lemma getOrCreate_create_refused_witness :
  getOrCreate (models := demoModels) verifyAliceInput
              (demoWorld 5000 [None; Some "create refused"; None])
  = (Rejected "create refused",
     mkWorld [resetNobody; verifyBob] [alice; bob] 5000 3%nat []) /\
  (forall t',
      In t' [resetNobody; verifyBob] <->
      In t' (tokens (demoWorld 5000 [None; Some "create refused"; None])) /\
      t' <> verifyAlice).
Proof.
  apply (getOrCreate_create_refused (models := demoModels) verifyAliceInput
           (demoWorld 5000 [None; Some "create refused"; None])
           (demoWorld 5000 [Some "create refused"; None])
           (demoWorld 5000 [None])
           (mkWorld [resetNobody; verifyBob] [alice; bob] 5000 3%nat [])
           verifyAlice "create refused").
  - apply demoWorld_uniqueIds.
  - reflexivity.
  - reflexivity.
  - reflexivity.
  - reflexivity.
Defined.

(** The login token created for Bob is redeemed with its pin. *)
Lemma getOrCreate_then_validateToken_witness :
  validateToken "3" "login" demoWorldWithLogin
  = (Fulfilled (ok loginBobToken), demoWorldWithLogin).
Proof.
  apply (getOrCreate_then_validateToken (models := demoModels) loginBobInput
           (demoWorld 0 []) demoWorldWithLogin loginBobToken).
  - reflexivity.
  - reflexivity.
  - reflexivity.
  - simpl. intros t' [<-|[<-|[<-|[<-|[]]]]] Hp Hk;
      try discriminate; reflexivity.
Defined.

(** The store is down at the first operation of each method. *)
Lemma first_fault_rejects_witness :
  validateUserToken (models := demoModels) "111111" "verify"
                    (demoWorld 0 [Some "connection lost"])
  = (Rejected "connection lost", demoWorld 0 []).
Proof.
  destruct (first_fault_rejects (models := demoModels)
              (demoWorld 0 [Some "connection lost"]) "connection lost" []
              verifyAliceInput "111111" "verify" "email:a@example.com"
              eq_refl)
    as (_ & _ & _ & _ & H & _).
  exact H.
Defined.
